(** * QueenSolver: peaceably co-existing armies of queens, as a SAT instance

    A shallow embedding of [QueenSolver.py]: the encoder [writeCNF], the
    solver adapter [solveCNF], the decoder [decodeSolution] and the entry
    point [main], followed by the properties of the specification.

    Conventions.
    - Python integers are [Z].
    - Python [str] values are [string]; a character stands for a code point
      below 256.
    - A Python [list] is a [list]; the three [set]s of [decodeSolution] are
      [gset]s.
    - An exception that leaves a function is the [Raise] case of [result].
    - The files on disk are a finite map from paths to contents. *)

From Stdlib Require Import ZArith Ascii String DecimalString DecimalPos DecimalZ.
From stdpp Require Import gmap strings list fin_maps.

Local Open Scope Z_scope.

(** ** Exceptions *)

(** The exceptions of the builtins the program calls. No definition below
    raises the last two: they are what [itertools.combinations] raises in
    CPython on a size it cannot hold or allocate. *)
Inductive exn : Set :=
  | ValueError
  | IndexError
  | FileNotFoundError
  | OverflowError
  | MemoryError.

Inductive result (A : Type) : Type :=
  | Ok (a : A)
  | Raise (e : exn).
Arguments Ok {A} a.
Arguments Raise {A} e.

#[global] Instance result_ret : MRet result := λ A a, Ok a.
#[global] Instance result_bind : MBind result := λ A B f m,
  match m with
  | Ok a => f a
  | Raise e => Raise e
  end.

(** ** Builtins used by the encoder *)

(** [range(n)] and [range(a, b)]. *)
Definition range (n : Z) : list Z := seqZ 0 n.
Definition range2 (a b : Z) : list Z := seqZ a (b - a).

(** The tuples that [itertools.combinations] yields, in the order it yields
    them: lexicographic in the positions of the chosen elements. *)
Fixpoint combs {A : Type} (l : list A) (r : nat) {struct l} : list (list A) :=
  match r with
  | O => [[]]
  | S r' =>
      match l with
      | [] => []
      | x :: t => (cons x <$> combs t r') ++ combs t r
      end
  end.

(** [itertools.combinations(iterable, r)]: a negative [r] is a
    [ValueError], raised by the call itself. What CPython does with a size
    it cannot hold or allocate is left out: an [r] outside C's [ssize_t]
    is an [OverflowError] there, and one index is allocated for each unit
    of [r], so that a huge [r] is a [MemoryError]. The properties that
    speak of a [k] outside [[-1, n² + 1]] or of a board size [n ≤ 0]
    therefore bound the size or do not name the exception. *)
Definition combinations {A : Type} (iterable : list A) (r : Z) : result (list (list A)) :=
  if r <? 0 then Raise ValueError else Ok (combs iterable (Z.to_nat r)).

(** [for x in xs: body], where the body updates the state [s]. *)
Definition for_ {A S : Type} (xs : list A) (body : A → S → S) (s : S) : S :=
  foldl (λ s x, body x s) s xs.

(** [l.append(x)]. *)
Definition append {A : Type} (x : A) (l : list A) : list A := l ++ [x].

(** ** The encoder *)

Abbreviation clause := (list Z).

Section Encoder.
Variable n : Z.

Definition wVar (i j : Z) : Z := i * n + j + 1.
Definition bVar (i j : Z) : Z := n * n + i * n + j + 1.

(** [[(i,j) for i in range(n) for j in range(n)]] *)
Definition cells : list (Z * Z) :=
  i ← range n; j ← range n; [(i, j)].

(** Lines 38-62: no army-A queen attacks an army-B queen. *)
Definition attackClauses (clauses : list clause) : list clause :=
  for_ (range n) (λ i,
    for_ (range n) (λ j clauses,
      let wv := wVar i j in
      let clauses :=
        for_ (range n) (λ jj clauses,
          if bool_decide (jj ≠ j) then
            let bv := bVar i jj in append [- wv; - bv] clauses
          else clauses) clauses in
      let clauses :=
        for_ (range n) (λ ii clauses,
          if bool_decide (ii ≠ i) then
            let bv := bVar ii j in append [- wv; - bv] clauses
          else clauses) clauses in
      let clauses :=
        for_ (range2 (- n + 1) n) (λ d clauses,
          if bool_decide (d ≠ 0) then
            let ii := i + d in
            let jj := j + d in
            if bool_decide (0 ≤ ii < n) && bool_decide (0 ≤ jj < n) then
              let bv := bVar ii jj in append [- wv; - bv] clauses
            else clauses
          else clauses) clauses in
      for_ (range2 (- n + 1) n) (λ d clauses,
        if bool_decide (d ≠ 0) then
          let ii := i + d in
          let jj := j - d in
          if bool_decide (0 ≤ ii < n) && bool_decide (0 ≤ jj < n) then
            let bv := bVar ii jj in append [- wv; - bv] clauses
          else clauses
        else clauses) clauses)) clauses.

(** Lines 65-69: a cell holds at most one queen. *)
Definition cellClauses (clauses : list clause) : list clause :=
  for_ (range n) (λ i,
    for_ (range n) (λ j clauses,
      let wv := wVar i j in
      let bv := bVar i j in
      append [- wv; - bv] clauses)) clauses.

(** Lines 14-69: the list [clauses] when the file is about to be written. *)
Definition writeCNF_clauses (k : Z) : result (list clause) :=
  let clauses : list clause := [] in
  let wCells := cells in
  let bCells := cells in
  let totalCells := n * n in
  combis ← combinations wCells (k + 1);
  let clauses :=
    for_ combis (λ combi,
      append ((λ '(i, j), - wVar i j) <$> combi)) clauses in
  combis ← combinations bCells (k + 1);
  let clauses :=
    for_ combis (λ combi,
      append ((λ '(i, j), - bVar i j) <$> combi)) clauses in
  combis ← combinations wCells (totalCells - k + 1);
  let clauses :=
    for_ combis (λ combi,
      append ((λ '(i, j), wVar i j) <$> combi)) clauses in
  combis ← combinations bCells (totalCells - k + 1);
  let clauses :=
    for_ combis (λ combi,
      append ((λ '(i, j), bVar i j) <$> combi)) clauses in
  let clauses := attackClauses clauses in
  let clauses := cellClauses clauses in
  mret clauses.
End Encoder.

(** ** Builtins on strings *)

Local Open Scope string_scope.

(** [ord(c)]. *)
Definition ord (c : ascii) : Z := Z.of_N (N_of_ascii c).

Definition LF : ascii := "010"%char.
Definition CR : ascii := "013"%char.

(** [str(z)] for an integer: decimal digits, a leading [-] when negative.
    (The interpreter's limit on the number of digits is not modelled.) *)
Definition str (z : Z) : string := NilZero.string_of_int (Z.to_int z).

(** [sep.join(l)]. *)
Fixpoint join (sep : string) (l : list string) : string :=
  match l with
  | [] => ""
  | [x] => x
  | x :: l' => x +:+ sep +:+ join sep l'
  end.

(** [s.startswith(p)] and [sub in s]. *)
Definition startswith (s p : string) : bool := String.prefix p s.

Fixpoint contains (sub s : string) : bool :=
  String.prefix sub s ||
  match s with
  | "" => false
  | String _ s' => contains sub s'
  end.

(** The line boundaries of [str.splitlines] below code point 256:
    LF, VT, FF, CR, FS, GS, RS and NEL; CR LF counts once. *)
Definition is_linebreak (c : ascii) : bool :=
  bool_decide (ord c ∈ [10; 11; 12; 13; 28; 29; 30; 133]).

(** [splitlines_from cr s]: the lines of [s], where [cr] tells that the
    character before [s] was a CR. *)
Fixpoint splitlines_from (cr : bool) (s : string) : list string :=
  match s with
  | "" => []
  | String c s' =>
      if cr && Ascii.eqb c LF then splitlines_from false s'
      else if is_linebreak c then "" :: splitlines_from (Ascii.eqb c CR) s'
      else
        match splitlines_from false s' with
        | [] => [String c ""]
        | l :: ls => String c l :: ls
        end
  end.

(** [s.splitlines()]. *)
Definition splitlines (s : string) : list string := splitlines_from false s.

(** The white space of [str.split] and [str.strip] below code point 256. *)
Definition is_space (c : ascii) : bool :=
  bool_decide (ord c ∈ [9; 10; 11; 12; 13; 28; 29; 30; 31; 32; 133; 160]).

(** [split_run s]: the run of non-space characters [s] starts with, and the
    words after that run. *)
Fixpoint split_run (s : string) : string * list string :=
  match s with
  | "" => ("", [])
  | String c s' =>
      let '(w, ws) := split_run s' in
      if is_space c then ("", if String.eqb w "" then ws else w :: ws)
      else (String c w, ws)
  end.

(** [s.split()]. *)
Definition split (s : string) : list string :=
  let '(w, ws) := split_run s in
  if String.eqb w "" then ws else w :: ws.

Fixpoint lstrip (sp : ascii → bool) (s : string) : string :=
  match s with
  | "" => ""
  | String c s' => if sp c then lstrip sp s' else s
  end.

Fixpoint rstrip (sp : ascii → bool) (s : string) : string :=
  match s with
  | "" => ""
  | String c s' =>
      match rstrip sp s' with
      | "" => if sp c then "" else String c ""
      | r => String c r
      end
  end.

(** [s.strip()]. *)
Definition strip (s : string) : string := rstrip is_space (lstrip is_space s).

(** The white space [int] skips around a number: the ASCII white space, and
    NEL and NBSP, which it first turns into blanks. *)
Definition is_int_space (c : ascii) : bool :=
  bool_decide (ord c ∈ [9; 10; 11; 12; 13; 32; 133; 160]).

Definition is_digit (c : ascii) : bool :=
  bool_decide (48 ≤ ord c ≤ 57)%Z.

(** Digits, with single underscores between digits only. *)
Fixpoint digits_ok (after_digit : bool) (s : string) : bool :=
  match s with
  | "" => after_digit
  | String c s' =>
      if is_digit c then digits_ok true s'
      else if Ascii.eqb c "_" then after_digit && digits_ok false s'
      else false
  end.

Fixpoint drop_underscores (s : string) : string :=
  match s with
  | "" => ""
  | String c s' =>
      if Ascii.eqb c "_" then drop_underscores s'
      else String c (drop_underscores s')
  end.

(** [int(s)] on a string: an optional sign and decimal digits, white space
    around them allowed; anything else is a [ValueError]. The interpreter's
    limit on the number of digits is left out: CPython raises [ValueError]
    on a numeral of more digits than [sys.get_int_max_str_digits()], which
    is 4300 unless set otherwise and is never set below 640. The
    properties that need [int] to return on a numeral therefore bound it
    by 640 digits. *)
Definition int (s : string) : result Z :=
  let s := rstrip is_int_space (lstrip is_int_space s) in
  let '(neg, body) :=
    match s with
    | String "-" r => (true, r)
    | String "+" r => (false, r)
    | _ => (false, s)
    end in
  if digits_ok false body then
    match NilEmpty.uint_of_string (drop_underscores body) with
    | Some d => Ok (Z.of_int (if neg then Decimal.Neg d else Decimal.Pos d))
    | None => Raise ValueError
    end
  else Raise ValueError.

(** [for x in xs: body], where the body may raise. *)
Fixpoint for_r {A S : Type} (xs : list A) (body : A → S → result S) (s : S) : result S :=
  match xs with
  | [] => Ok s
  | x :: xs' => s' ← body x s; for_r xs' body s'
  end.

(** ** The CNF file *)

(** The text written through [f] at lines 74-76. *)
Definition dimacs (maxVar : Z) (clauses : list clause) : string :=
  "p cnf " +:+ str maxVar +:+ " " +:+ str (Z.of_nat (length clauses)) +:+ String LF ""
  +:+ for_ clauses (λ c text,
        text +:+ (join " " (str <$> c) +:+ " 0" +:+ String LF "")) "".

(** [writeCNF(n, k, outputFile)]: the files afterwards. [open(_, "w")]
    creates or truncates the file, and is taken to succeed. An exception
    leaves before the file is opened. *)
Definition writeCNF (n k : Z) (outputFile : string) (fs : gmap string string)
    : result (gmap string string) :=
  clauses ← writeCNF_clauses n k;
  let maxVar := 2 * n * n in
  mret (<[outputFile := dimacs maxVar clauses]> fs).

(** ** The solver adapter *)

(** What [print] has written: one entry per call. *)
Definition console : Type := list string.

Section Pipeline.
(** [subprocess.run(argv, capture_output=True, text=True)], seen from the
    program: with the files as they are, either the captured standard
    output of the finished process, or the exception of a program that
    cannot be started. *)
Variable subprocess_run : list string → gmap string string → result string.

(** Lines 88-99: the body of the loop over the lines of the output. *)
Definition solveCNF_line (l : string) (st : option bool * list Z)
    : result (option bool * list Z) :=
  let '(sat, model) := st in
  let sat :=
    if startswith l "s " then
      if contains "UNSATISFIABLE" l then Some false else Some true
    else sat in
  if startswith l "v " then
    let parts := split l in
    model ← for_r (tail parts) (λ p model,
               val ← int p;
               if bool_decide (val ≠ 0) then mret (append val model)
               else mret model) model;
    mret (sat, model)
  else mret (sat, model).

(** [solveCNF(cnfFile, printStats)]: what it prints, and the pair it
    returns. *)
Definition solveCNF (cnfFile : string) (printStats : bool) (fs : gmap string string)
    : result (console * (option bool * list Z)) :=
  stdout ← subprocess_run ["glucose"; "-model"; cnfFile] fs;
  let output := splitlines stdout in
  let sat : option bool := None in
  let model : list Z := [] in
  '(sat, model) ← for_r output solveCNF_line (sat, model);
  let printed : console :=
    if printStats then
      for_ output (λ l printed,
        if startswith l "c " then append l printed else printed)
        [String LF "Solver Stats:"]
    else [] in
  mret (printed, (sat, model)).

(** ** The decoder *)

(** Lines 114-115: the IDs the decoder computes for the cell [(i, j)]. *)
Definition decodeSolution_ids (n i j : Z) : Z * Z :=
  ((i * n + j + 1)%Z, (n * n + i * n + j + 1)%Z).

Definition decodeSolution (n : Z) (model : list Z) : string :=
  let wPositions : gset (Z * Z) := ∅ in
  let bPositions : gset (Z * Z) := ∅ in
  let trueVars : gset Z := list_to_set (filter (λ v, 0 < v)%Z model) in
  let '(wPositions, bPositions) :=
    for_ (range n) (λ i,
      for_ (range n) (λ j '(wPositions, bPositions),
        let '(wv, bv) := decodeSolution_ids n i j in
        let wPositions :=
          if bool_decide (wv ∈ trueVars) then wPositions ∪ {[ (i, j) ]}
          else wPositions in
        let bPositions :=
          if bool_decide (bv ∈ trueVars) then bPositions ∪ {[ (i, j) ]}
          else bPositions in
        (wPositions, bPositions))) (wPositions, bPositions) in
  let board : list string :=
    for_ (range n) (λ i board,
      let row : list string :=
        for_ (range n) (λ j row,
          if bool_decide ((i, j) ∈ wPositions) then append "W" row
          else if bool_decide ((i, j) ∈ bPositions) then append "B" row
          else append "." row) [] in
      append (join " " row) board) [] in
  join (String LF "") board.

(** ** The entry point *)

(** The namespace [parse_args] returns. *)
Record Args : Type := {
  args_n : option Z;
  args_k : option Z;
  args_cnf : option string;
  args_solve : bool;
  args_stats : bool;
  args_instance : option string
}.

(** How the process ends: [main] returns, [sys.exit(code)] is called, or
    an exception is never caught. *)
Inductive ending : Set :=
  | Returned
  | SysExit (code : Z)
  | Uncaught (e : exn).

Record outcome : Type := {
  printed : console;
  ended : ending;
  files : gmap string string
}.

(** The truth value of an optional string: [None] and [""] are false. *)
Definition nonempty (o : option string) : option string :=
  match o with
  | Some s => if String.eqb s "" then None else Some s
  | None => None
  end.

(** [lines[i]]. *)
Definition index (lines : list string) (i : nat) : result string :=
  match lines !! i with
  | Some l => Ok l
  | None => Raise IndexError
  end.

(** Lines 150-157: [n] and [k], from the instance file or the arguments. *)
Definition read_nk (args : Args) (fs : gmap string string)
    : result (option Z * option Z) :=
  match nonempty (args_instance args) with
  | Some path =>
      match fs !! path with
      | None => Raise FileNotFoundError
      | Some text =>
          let lines := splitlines (strip text) in
          l0 ← index lines 0;
          n ← int l0;
          l1 ← index lines 1;
          k ← int l1;
          mret (Some n, Some k)
      end
  | None => mret (args_n args, args_k args)
  end.

(** [not x] for an optional integer: [None] and [0] are false. *)
Definition falsy (x : option Z) : bool :=
  match x with
  | Some z => bool_decide (z = 0%Z)
  | None => true
  end.

(** Lines 149-177 of [main], on the namespace [args] that
    [parser.parse_args()] has returned: what is printed, how the process
    ends and the files it leaves. The parsing of the command line (lines
    137-147) comes before and is left out; there [argparse] ends the
    process itself, with status 2 on a command line it rejects and with
    status 0 after [--help]. *)
Definition main (args : Args) (fs : gmap string string) : outcome :=
  match read_nk args fs with
  | Raise e => {| printed := []; ended := Uncaught e; files := fs |}
  | Ok (n, k) =>
      if falsy n || falsy k then
        {| printed := ["Please specify n and k."]; ended := SysExit 1; files := fs |}
      else
        let n := default 0%Z n in
        let k := default 0%Z k in
        let cnfFile := default "tmp.cnf" (nonempty (args_cnf args)) in
        match writeCNF n k cnfFile fs with
        | Raise e => {| printed := []; ended := Uncaught e; files := fs |}
        | Ok fs =>
            if args_solve args then
              match solveCNF cnfFile (args_stats args) fs with
              | Raise e => {| printed := []; ended := Uncaught e; files := fs |}
              | Ok (printed, (sat, model)) =>
                  match sat with
                  | None =>
                      {| printed := append "Error running solver." printed;
                         ended := Returned; files := fs |}
                  | Some true =>
                      {| printed := append (decodeSolution n model) (append "SAT" printed);
                         ended := Returned; files := fs |}
                  | Some false =>
                      {| printed := append "UNSAT" printed;
                         ended := Returned; files := fs |}
                  end
              end
            else {| printed := []; ended := Returned; files := fs |}
        end
  end.
End Pipeline.

(** ** Notions the specification speaks of *)

(** The two armies, and the ID of the variable of a cell and an army. *)
Inductive army : Set := ArmyA | ArmyB.

Definition varId (n : Z) (a : army) (i j : Z) : Z :=
  match a with
  | ArmyA => wVar n i j
  | ArmyB => bVar n i j
  end.

Definition on_board (n i j : Z) : Prop := (0 ≤ i < n ∧ 0 ≤ j < n)%Z.

(** Two cells on a common row, column or diagonal. *)
Definition same_line (i j i' j' : Z) : Prop :=
  (i = i' ∨ j = j' ∨ i' - i = j' - j ∨ i' - i = j - j')%Z.

(** A truth assignment gives every variable ID a truth value. *)
Definition assignment : Type := Z → bool.

Definition lit_true (a : assignment) (l : Z) : bool :=
  if (0 <? l)%Z then a l else negb (a (- l)%Z).

Definition clause_true (a : assignment) (c : clause) : bool :=
  existsb (lit_true a) c.

Definition satisfies (a : assignment) (clauses : list clause) : bool :=
  forallb (clause_true a) clauses.

(** A literal of a formula over the variables [1 .. maxVar]. *)
Definition literal_in (maxVar l : Z) : Prop :=
  (l ≠ 0 ∧ 1 ≤ Z.abs l ≤ maxVar)%Z.

(** A reader of DIMACS text: a header [p cnf <maxVar> <numClauses>], then
    one clause a line, each a white-space separated list of integers that
    ends with the only [0] of the line. *)
Definition to_option {A : Type} (r : result A) : option A :=
  match r with
  | Ok a => Some a
  | Raise _ => None
  end.

Definition read_clause (line : string) : option clause :=
  ints ← mapM (λ t, to_option (int t)) (split line);
  match reverse ints with
  | 0%Z :: lits =>
      if forallb (λ l, negb (l =? 0)%Z) lits then Some (reverse lits) else None
  | _ => None
  end.

Definition read_dimacs (text : string) : option (Z * Z * list clause) :=
  match splitlines text with
  | header :: lines =>
      match split header with
      | ["p"; "cnf"; v; c] =>
          maxVar ← to_option (int v);
          numClauses ← to_option (int c);
          clauses ← mapM read_clause lines;
          Some (maxVar, numClauses, clauses)
      | _ => None
      end
  | [] => None
  end.

(** The board as the specification words it: for each cell the army-A
    symbol if its army-A ID is a positive literal of the assignment, else
    the army-B symbol if its army-B ID is, else the empty symbol. *)
Definition cell_symbol (n : Z) (model : list Z) (i j : Z) : string :=
  if bool_decide (varId n ArmyA i j ∈ model) then "W"
  else if bool_decide (varId n ArmyB i j ∈ model) then "B"
  else ".".

Definition board_text (n : Z) (model : list Z) : string :=
  join (String LF "")
    ((λ i, join " " ((λ j, cell_symbol n model i j) <$> range n)) <$> range n).

(** The two sets the first pair of loops of [decodeSolution] builds
    (lines 112-119), for the set [trueVars] of line 111. *)
Definition decode_positions (n : Z) (trueVars : gset Z) : gset (Z * Z) * gset (Z * Z) :=
  for_ (range n) (λ i,
    for_ (range n) (λ j '(wPositions, bPositions),
      let '(wv, bv) := decodeSolution_ids n i j in
      let wPositions :=
        if bool_decide (wv ∈ trueVars) then wPositions ∪ {[ (i, j) ]}
        else wPositions in
      let bPositions :=
        if bool_decide (bv ∈ trueVars) then bPositions ∪ {[ (i, j) ]}
        else bPositions in
      (wPositions, bPositions))) (∅, ∅).

(** [all_chars P s]: every character of [s] passes the test [P]. *)
Fixpoint all_chars (P : ascii → bool) (s : string) : bool :=
  match s with
  | "" => true
  | String c s' => P c && all_chars P s'
  end.

(** The characters [str] writes: the digits and the minus sign. *)
Definition is_int_char (c : ascii) : bool := is_digit c || Ascii.eqb c "-".

(** The text of a clause line, without the line feed (line 76). *)
Definition clause_line (c : clause) : string := join " " (str <$> c) +:+ " 0".

(** The header line, without the line feed (line 74). *)
Definition header_line (maxVar : Z) (numClauses : nat) : string :=
  "p cnf " +:+ str maxVar +:+ " " +:+ str (Z.of_nat numClauses).

(** ** The clauses, family by family

    The clauses each group of loops of [writeCNF] appends, written as
    comprehensions; [writeCNF_clauses_eq] shows that the loops build
    exactly these lists, in this order. *)

Definition at_most_list (n k : Z) : list clause :=
  ((λ combi : list (Z * Z), (λ '(i, j), - wVar n i j)%Z <$> combi) <$> combs (cells n) (Z.to_nat (k + 1)))
  ++ ((λ combi : list (Z * Z), (λ '(i, j), - bVar n i j)%Z <$> combi) <$> combs (cells n) (Z.to_nat (k + 1))).

Definition at_least_list (n k : Z) : list clause :=
  ((λ combi : list (Z * Z), (λ '(i, j), wVar n i j) <$> combi) <$> combs (cells n) (Z.to_nat (n * n - k + 1)))
  ++ ((λ combi : list (Z * Z), (λ '(i, j), bVar n i j) <$> combi) <$> combs (cells n) (Z.to_nat (n * n - k + 1))).

Definition attack_cell_list (n i j : Z) : list clause :=
  (jj ← range n;
    if bool_decide (jj ≠ j) then [[- wVar n i j; - bVar n i jj]%Z] else [])
  ++ (ii ← range n;
    if bool_decide (ii ≠ i) then [[- wVar n i j; - bVar n ii j]%Z] else [])
  ++ (d ← range2 (- n + 1) n;
    if bool_decide (d ≠ 0%Z) then
      if bool_decide (0 ≤ i + d < n)%Z && bool_decide (0 ≤ j + d < n)%Z
      then [[- wVar n i j; - bVar n (i + d) (j + d)]%Z] else []
    else [])
  ++ (d ← range2 (- n + 1) n;
    if bool_decide (d ≠ 0%Z) then
      if bool_decide (0 ≤ i + d < n)%Z && bool_decide (0 ≤ j - d < n)%Z
      then [[- wVar n i j; - bVar n (i + d) (j - d)]%Z] else []
    else []).

Definition attack_list (n : Z) : list clause :=
  i ← range n; j ← range n; attack_cell_list n i j.

Definition cell_list (n : Z) : list clause :=
  i ← range n; j ← range n; [[- wVar n i j; - bVar n i j]%Z].

(** ** Notions for the meaning of the formula *)

(** The binomial coefficient, by Pascal's rule. *)
Fixpoint choose (m r : nat) {struct m} : nat :=
  match r with
  | O => 1%nat
  | S r' =>
      match m with
      | O => 0%nat
      | S m' => (choose m' r' + choose m' r)%nat
      end
  end.

(** The cells whose variable, numbered by [var], the assignment makes
    true: where the army has its queens. *)
Definition queens (n : Z) (var : Z → Z → Z → Z) (a : assignment) : list (Z * Z) :=
  filter (λ c, a (var n c.1 c.2) = true) (cells n).

(** The number of cells a queen on [(i, j)] attacks on an empty board of
    size [n]: along the row, the column and the two diagonals. *)
Definition queen_moves (n i j : Z) : Z :=
  (2 * (n - 1) + Z.min i j + Z.min (n - 1 - i) (n - 1 - j)
   + Z.min i (n - 1 - j) + Z.min (n - 1 - i) j)%Z.

(** An instance file, when one is named and exists, of 640 characters at
    most. Python's [int] raises [ValueError] on a numeral of more digits
    than its limit (4300 unless set otherwise, and never set below 640);
    the lines of such a file are below every limit. *)
Definition short_instance (args : Args) (fs : gmap string string) : Prop :=
  ∀ path text,
    nonempty (args_instance args) = Some path → fs !! path = Some text →
    (String.length text ≤ 640)%nat.


(** * Properties *)

Local Open Scope list_scope.
Local Open Scope Z_scope.

(** ** Loops that only append *)

Lemma for_cons {A S : Type} (x : A) (xs : list A) (body : A → S → S) (s : S) :
  for_ (x :: xs) body s = for_ xs body (body x s).
Proof. reflexivity. Qed.

(** A loop whose body appends [g x] to the list appends the [g x] in turn. *)
Lemma for_appends {A B : Type} (xs : list A) (body : A → list B → list B)
    (g : A → list B) (s : list B) :
  (∀ x s, x ∈ xs → body x s = s ++ g x) →
  for_ xs body s = s ++ (xs ≫= g).
Proof.
  revert s. induction xs as [|x xs IH]; intros s Hbody.
  - simpl. by rewrite app_nil_r.
  - rewrite for_cons, IH.
    + rewrite Hbody by left. rewrite bind_cons. by rewrite <- (assoc_L (++)).
    + intros y t Hy. apply Hbody. by right.
Qed.

Lemma for_append_map {A B : Type} (xs : list A) (f : A → B) (s : list B) :
  for_ xs (λ x, append (f x)) s = s ++ (f <$> xs).
Proof.
  rewrite (for_appends xs _ (λ x, [f x])); [|done].
  by f_equal.
Qed.

(** An invariant of the body is an invariant of the loop. *)
Lemma for_invariant {A S : Type} (P : S → Prop) (xs : list A) (body : A → S → S) (s : S) :
  P s → (∀ x s, x ∈ xs → P s → P (body x s)) → P (for_ xs body s).
Proof.
  revert s. induction xs as [|x xs IH]; intros s Hs Hbody; [done|].
  rewrite for_cons. apply IH.
  - apply Hbody; [by left|done].
  - intros y t Hy. apply Hbody. by right.
Qed.

(** ** Combinations *)

Lemma combs_nil_r {A : Type} (l : list A) : combs l 0 = [[]].
Proof. by destruct l. Qed.

Lemma combs_short {A : Type} (l : list A) (r : nat) :
  (length l < r)%nat → combs l r = [].
Proof.
  revert r. induction l as [|x l IH]; intros [|r] Hlen; simpl in *; try lia; [done|].
  rewrite (IH r) by lia. rewrite (IH (S r)) by lia. done.
Qed.

Lemma elem_of_combs {A : Type} (l : list A) (r : nat) (c : list A) :
  c ∈ combs l r → length c = r ∧ (∀ x, x ∈ c → x ∈ l).
Proof.
  revert r c. induction l as [|x l IH]; intros [|r] c; simpl.
  - intros ->%list_elem_of_singleton. split; [done|]. by intros y ?%elem_of_nil.
  - by intros ?%elem_of_nil.
  - intros ->%list_elem_of_singleton. split; [done|]. by intros y ?%elem_of_nil.
  - rewrite elem_of_app, list_elem_of_fmap. intros [(c' & -> & Hc')|Hc].
    + destruct (IH _ _ Hc') as [Hlen Hsub]. split; [simpl; lia|].
      intros y [->|Hy]%elem_of_cons; [by left|]. right. by apply Hsub.
    + destruct (IH _ _ Hc) as [Hlen Hsub]. split; [done|].
      intros y Hy. right. by apply Hsub.
Qed.

Lemma combs_singleton {A : Type} (l : list A) (x : A) :
  x ∈ l → [x] ∈ combs l 1.
Proof.
  induction l as [|y l IH]; [by intros ?%elem_of_nil|].
  intros [->|Hx]%elem_of_cons; simpl; rewrite elem_of_app.
  - left. rewrite combs_nil_r. simpl. by left.
  - right. by apply IH.
Qed.

(** ** Cells and their variables *)

Lemma elem_of_range (n i : Z) : i ∈ range n ↔ 0 ≤ i < n.
Proof. unfold range. rewrite elem_of_seqZ. lia. Qed.

Lemma elem_of_range2 (a b d : Z) : d ∈ range2 a b ↔ a ≤ d < b.
Proof. unfold range2. rewrite elem_of_seqZ. lia. Qed.

Lemma elem_of_cells (n i j : Z) : (i, j) ∈ cells n ↔ on_board n i j.
Proof.
  unfold cells, on_board. rewrite list_elem_of_bind. split.
  - intros (i' & (j' & Hij & Hj)%list_elem_of_bind & Hi).
    apply list_elem_of_singleton in Hij. simplify_eq.
    by rewrite <- !elem_of_range.
  - intros [Hi Hj]. exists i. rewrite list_elem_of_bind, !elem_of_range.
    split; [|done]. exists j. rewrite elem_of_range, list_elem_of_singleton. done.
Qed.

Lemma length_cells (n : Z) : length (cells n) = (Z.to_nat n * Z.to_nat n)%nat.
Proof.
  unfold cells.
  assert (Hin : ∀ (l : list Z) (i : Z), length (l ≫= λ j, [(i, j)]) = length l).
  { intros l i. induction l as [|y l IH]; [done|]. rewrite bind_cons. simpl. by rewrite IH. }
  assert (Hout : ∀ (l : list Z) (m : nat),
    length (l ≫= λ i, range n ≫= λ j, [(i, j)]) = (length l * length (range n))%nat).
  { intros l _. induction l as [|y l IH]; [done|].
    rewrite bind_cons, length_app, IH, Hin. simpl. lia. }
  rewrite (Hout _ O). unfold range. by rewrite !length_seqZ.
Qed.

Lemma wVar_bounds (n i j : Z) : on_board n i j → 1 ≤ wVar n i j ≤ n * n.
Proof. unfold on_board, wVar. nia. Qed.

Lemma bVar_bounds (n i j : Z) : on_board n i j → n * n + 1 ≤ bVar n i j ≤ 2 * n * n.
Proof. unfold on_board, bVar. nia. Qed.

(** ** The loops of the encoder build the clause families *)

Lemma for_append_if {A B : Type} (xs : list A) (cond : A → bool) (f : A → B)
    (s : list B) :
  for_ xs (λ x s, if cond x then append (f x) s else s) s
  = s ++ (x ← xs; if cond x then [f x] else []).
Proof.
  apply for_appends. intros x t _. unfold append.
  destruct (cond x); by rewrite ?app_nil_r.
Qed.

Lemma for_append_if2 {A B : Type} (xs : list A) (cond cond' : A → bool) (f : A → B)
    (s : list B) :
  for_ xs (λ x s, if cond x then if cond' x then append (f x) s else s else s) s
  = s ++ (x ← xs; if cond x then if cond' x then [f x] else [] else []).
Proof.
  apply for_appends. intros x t _. unfold append.
  destruct (cond x), (cond' x); by rewrite ?app_nil_r.
Qed.

Lemma attackClauses_eq (n : Z) (clauses : list clause) :
  attackClauses n clauses = clauses ++ attack_list n.
Proof.
  unfold attackClauses, attack_list.
  apply for_appends. intros i s _.
  apply for_appends. intros j t _. cbv zeta.
  rewrite !for_append_if2, !for_append_if.
  unfold attack_cell_list. by rewrite !(assoc_L (++)).
Qed.

Lemma cellClauses_eq (n : Z) (clauses : list clause) :
  cellClauses n clauses = clauses ++ cell_list n.
Proof.
  unfold cellClauses, cell_list.
  apply for_appends. intros i s _.
  apply for_appends. intros j t _. done.
Qed.

Lemma writeCNF_clauses_eq (n k : Z) :
  -1 ≤ k ≤ n * n + 1 →
  writeCNF_clauses n k
  = Ok (at_most_list n k ++ at_least_list n k ++ attack_list n ++ cell_list n).
Proof.
  intros Hk. unfold writeCNF_clauses, combinations.
  destruct (Z.ltb_spec (k + 1) 0) as [?|_]; [lia|].
  destruct (Z.ltb_spec (n * n - k + 1) 0) as [?|_]; [lia|].
  cbn [mbind result_bind mret result_ret]. f_equal.
  rewrite cellClauses_eq, attackClauses_eq, !for_append_map.
  unfold at_most_list, at_least_list. simpl. by rewrite <- !(assoc_L (++)).
Qed.

Lemma writeCNF_clauses_raise (n k : Z) :
  k < -1 ∨ n * n + 1 < k → writeCNF_clauses n k = Raise ValueError.
Proof.
  intros Hk. unfold writeCNF_clauses, combinations.
  destruct (Z.ltb_spec (k + 1) 0) as [?|?]; [done|].
  destruct (Z.ltb_spec (n * n - k + 1) 0) as [?|?]; [|lia].
  done.
Qed.

(** ** What each clause family holds *)

Lemma elem_of_attack_cell_list (n i j : Z) (c : list Z) :
  on_board n i j →
  c ∈ attack_cell_list n i j ↔
  ∃ i' j', on_board n i' j' ∧ (i, j) ≠ (i', j') ∧ same_line i j i' j'
           ∧ c = [- wVar n i j; - bVar n i' j'].
Proof.
  intros [Hi Hj]. unfold attack_cell_list, on_board, same_line.
  rewrite !elem_of_app, !list_elem_of_bind. split.
  - intros [(jj & Hc & Hjj)|[(ii & Hc & Hii)|[(d & Hc & Hd)|(d & Hc & Hd)]]];
      rewrite ?elem_of_range, ?elem_of_range2 in *.
    + case_bool_decide; [|by apply elem_of_nil in Hc].
      apply list_elem_of_singleton in Hc as ->.
      exists i, jj. repeat split; try lia; intros [=]; lia.
    + case_bool_decide; [|by apply elem_of_nil in Hc].
      apply list_elem_of_singleton in Hc as ->.
      exists ii, j. repeat split; try lia; intros [=]; lia.
    + case_bool_decide; [|by apply elem_of_nil in Hc].
      destruct (bool_decide (0 ≤ i + d < n) && bool_decide (0 ≤ j + d < n)) eqn:Hb;
        [|by apply elem_of_nil in Hc].
      apply andb_true_iff in Hb as [?%bool_decide_eq_true ?%bool_decide_eq_true].
      apply list_elem_of_singleton in Hc as ->.
      exists (i + d), (j + d). repeat split; try lia; intros [=]; lia.
    + case_bool_decide; [|by apply elem_of_nil in Hc].
      destruct (bool_decide (0 ≤ i + d < n) && bool_decide (0 ≤ j - d < n)) eqn:Hb;
        [|by apply elem_of_nil in Hc].
      apply andb_true_iff in Hb as [?%bool_decide_eq_true ?%bool_decide_eq_true].
      apply list_elem_of_singleton in Hc as ->.
      exists (i + d), (j - d). repeat split; try lia; intros [=]; lia.
  - intros (i' & j' & [Hi' Hj'] & Hne & Hline & ->).
    destruct (decide (i = i')) as [<-|Hii].
    { left. exists j'. rewrite elem_of_range. split; [|done].
      rewrite bool_decide_true by congruence. by left. }
    destruct (decide (j = j')) as [<-|Hjj].
    { right; left. exists i'. rewrite elem_of_range. split; [|done].
      rewrite bool_decide_true by congruence. by left. }
    destruct Hline as [?|[?|[Hd|Hd]]]; [done|done| |].
    + right; right; left. exists (i' - i). rewrite elem_of_range2. split; [|lia].
      rewrite bool_decide_true by lia.
      replace (i + (i' - i)) with i' by lia. replace (j + (i' - i)) with j' by lia.
      rewrite !bool_decide_true by lia. by left.
    + right; right; right. exists (i' - i). rewrite elem_of_range2. split; [|lia].
      rewrite bool_decide_true by lia.
      replace (i + (i' - i)) with i' by lia. replace (j - (i' - i)) with j' by lia.
      rewrite !bool_decide_true by lia. by left.
Qed.

Lemma elem_of_attack_list (n : Z) (c : list Z) :
  c ∈ attack_list n ↔
  ∃ i j i' j', on_board n i j ∧ on_board n i' j' ∧ (i, j) ≠ (i', j')
               ∧ same_line i j i' j' ∧ c = [- wVar n i j; - bVar n i' j'].
Proof.
  unfold attack_list. rewrite list_elem_of_bind. split.
  - intros (i & (j & Hc & Hj)%list_elem_of_bind & Hi).
    rewrite elem_of_range in Hi, Hj.
    apply elem_of_attack_cell_list in Hc as (i' & j' & ? & ? & ? & ->); [|done].
    by exists i, j, i', j'.
  - intros (i & j & i' & j' & Hij & ? & ? & ? & ->).
    exists i. rewrite elem_of_range. split; [|apply Hij].
    apply list_elem_of_bind. exists j. rewrite elem_of_range. split; [|apply Hij].
    apply elem_of_attack_cell_list; [done|]. by exists i', j'.
Qed.

Lemma elem_of_cell_list (n : Z) (c : list Z) :
  c ∈ cell_list n ↔ ∃ i j, on_board n i j ∧ c = [- wVar n i j; - bVar n i j].
Proof.
  unfold cell_list. rewrite list_elem_of_bind. split.
  - intros (i & (j & Hc & Hj)%list_elem_of_bind & Hi).
    rewrite elem_of_range in Hi, Hj. apply list_elem_of_singleton in Hc.
    by exists i, j.
  - intros (i & j & Hij & ->).
    exists i. rewrite elem_of_range. split; [|apply Hij].
    apply list_elem_of_bind. exists j. rewrite elem_of_range. split; [|apply Hij].
    by left.
Qed.

(** A clause of a cardinality family is the image of a tuple of [r] cells. *)
Lemma elem_of_card_family (n : Z) (r : nat) (lit : Z * Z → Z) (c : list Z) :
  c ∈ (λ combi : list (Z * Z), lit <$> combi) <$> combs (cells n) r →
  length c = r ∧ ∀ l, l ∈ c → ∃ i j, on_board n i j ∧ l = lit (i, j).
Proof.
  intros (combi & -> & [Hlen Hsub]%elem_of_combs)%list_elem_of_fmap.
  split; [by rewrite length_fmap|].
  intros l ([i j] & -> & Hx)%list_elem_of_fmap.
  exists i, j. split; [|done]. by apply elem_of_cells, Hsub.
Qed.

Lemma card_family_unit (n i j : Z) (lit : Z * Z → Z) :
  on_board n i j →
  [lit (i, j)] ∈ (λ combi : list (Z * Z), lit <$> combi) <$> combs (cells n) 1.
Proof.
  intros Hij. apply list_elem_of_fmap. exists [(i, j)]. split; [done|].
  by apply combs_singleton, elem_of_cells.
Qed.

Lemma card_family_too_long (n : Z) (r : nat) (lit : Z * Z → Z) :
  (Z.to_nat n * Z.to_nat n < r)%nat →
  (λ combi : list (Z * Z), lit <$> combi) <$> combs (cells n) r = [].
Proof. intros Hr. rewrite combs_short; [done|]. by rewrite length_cells. Qed.

(** ** Truth assignments *)

Lemma satisfies_elem (a : assignment) (clauses : list clause) (c : clause) :
  satisfies a clauses = true → c ∈ clauses → clause_true a c = true.
Proof.
  unfold satisfies. rewrite forallb_forall. intros Hall Hc.
  by apply Hall, list_elem_of_In.
Qed.

Lemma satisfies_Forall (a : assignment) (clauses : list clause) :
  Forall (λ c, clause_true a c = true) clauses → satisfies a clauses = true.
Proof.
  unfold satisfies. rewrite forallb_forall, Forall_forall.
  intros Hall c Hc. by apply Hall, list_elem_of_In.
Qed.

Lemma lit_true_neg (a : assignment) (v : Z) :
  0 < v → lit_true a (- v) = negb (a v).
Proof.
  intros Hv. unfold lit_true. destruct (Z.ltb_spec 0 (- v)); [lia|].
  by rewrite Z.opp_involutive.
Qed.

Lemma lit_true_pos (a : assignment) (v : Z) :
  0 < v → lit_true a v = a v.
Proof. intros Hv. unfold lit_true. by destruct (Z.ltb_spec 0 v); [|lia]. Qed.

(** A clause of two negated variables excludes that both are true. *)
Lemma clause_true_pair (a : assignment) (v w : Z) :
  0 < v → 0 < w →
  clause_true a [- v; - w] = true → ¬ (a v = true ∧ a w = true).
Proof.
  intros Hv Hw. unfold clause_true. simpl.
  rewrite !lit_true_neg by done. intros Hc [Hav Haw].
  rewrite Hav, Haw in Hc. done.
Qed.

(** The assignment that makes every variable false satisfies a clause that
    has a negated variable. *)
Lemma clause_true_all_false (c : clause) (l : Z) :
  l ∈ c → l < 0 → clause_true (λ _, false) c = true.
Proof.
  intros Hl Hneg. unfold clause_true. apply existsb_exists.
  exists l. split; [by apply list_elem_of_In|].
  unfold lit_true. by destruct (Z.ltb_spec 0 l); [lia|].
Qed.

(** ** The variable numbering *)

Lemma cell_index_inj (n i j i' j' : Z) :
  on_board n i j → on_board n i' j' →
  i * n + j = i' * n + j' → i = i' ∧ j = j'.
Proof.
  unfold on_board. intros [Hi Hj] [Hi' Hj'] Heq.
  assert (i = i') as -> by nia. lia.
Qed.

Lemma cell_index_surj (n v : Z) :
  1 ≤ n → 0 ≤ v < n * n → ∃ i j, on_board n i j ∧ i * n + j = v.
Proof.
  intros Hn Hv. assert (0 < n) by lia.
  exists (v / n), (v mod n). unfold on_board.
  pose proof (Z.mod_pos_bound v n ltac:(done)).
  pose proof (Z.div_mod v n ltac:(lia)).
  assert (0 ≤ v / n) by (apply Z.div_pos; lia).
  assert (v / n < n) by (apply Z.div_lt_upper_bound; lia).
  repeat split; lia.
Qed.

(** C7. For [n ≥ 1] the numbering [(row, col, army) ↦ ID] maps the army-A
    cells into [1 .. n²] and the army-B cells into [n²+1 .. 2n²], is
    injective on the cells of the board, reaches every ID of [1 .. 2n²]
    (army A exactly those up to [n²], army B exactly those above), and the
    decoder computes for every cell the same two IDs as the encoder. *)
Theorem varId_bijection (n : Z) :
  1 ≤ n →
  (∀ i j, on_board n i j →
     1 ≤ varId n ArmyA i j ≤ n * n ∧ n * n + 1 ≤ varId n ArmyB i j ≤ 2 * n * n)
  ∧ (∀ a i j a' i' j', on_board n i j → on_board n i' j' →
       varId n a i j = varId n a' i' j' → a = a' ∧ i = i' ∧ j = j')
  ∧ (∀ v, 1 ≤ v ≤ n * n → ∃ i j, on_board n i j ∧ varId n ArmyA i j = v)
  ∧ (∀ v, n * n + 1 ≤ v ≤ 2 * n * n → ∃ i j, on_board n i j ∧ varId n ArmyB i j = v)
  ∧ (∀ i j, decodeSolution_ids n i j = (varId n ArmyA i j, varId n ArmyB i j)).
Proof.
  intros Hn. split; [|split; [|split; [|split]]].
  - intros i j Hij. split; [by apply wVar_bounds|by apply bVar_bounds].
  - intros a i j a' i' j' Hij Hij' Heq.
    pose proof (wVar_bounds n i j Hij). pose proof (bVar_bounds n i j Hij).
    pose proof (wVar_bounds n i' j' Hij'). pose proof (bVar_bounds n i' j' Hij').
    destruct a, a'; simpl in Heq; try lia; (split; [done|]);
      apply (cell_index_inj n); try done; unfold wVar, bVar in Heq; lia.
  - intros v Hv. destruct (cell_index_surj n (v - 1)) as (i & j & Hij & Heq); [lia|lia|].
    exists i, j. split; [done|]. simpl. unfold wVar. lia.
  - intros v Hv.
    destruct (cell_index_surj n (v - n * n - 1)) as (i & j & Hij & Heq); [lia|lia|].
    exists i, j. split; [done|]. simpl. unfold bVar. lia.
  - done.
Qed.

Lemma varId_bijection_witness :
  1 ≤ 3 ∧
  ((∀ i j, on_board 3 i j →
     1 ≤ varId 3 ArmyA i j ≤ 3 * 3 ∧ 3 * 3 + 1 ≤ varId 3 ArmyB i j ≤ 2 * 3 * 3)
  ∧ (∀ a i j a' i' j', on_board 3 i j → on_board 3 i' j' →
       varId 3 a i j = varId 3 a' i' j' → a = a' ∧ i = i' ∧ j = j')
  ∧ (∀ v, 1 ≤ v ≤ 3 * 3 → ∃ i j, on_board 3 i j ∧ varId 3 ArmyA i j = v)
  ∧ (∀ v, 3 * 3 + 1 ≤ v ≤ 2 * 3 * 3 → ∃ i j, on_board 3 i j ∧ varId 3 ArmyB i j = v)
  ∧ (∀ i j, decodeSolution_ids 3 i j = (varId 3 ArmyA i j, varId 3 ArmyB i j))).
Proof. split; [lia|]. apply (varId_bijection 3). lia. Defined.

(** ** The formula of the encoder *)

(** C1. For [n ≥ 1], [0 ≤ k ≤ n²] and two distinct cells of the board on a
    common row, column or diagonal, the formula of [writeCNF(n, k)] has the
    clause [¬A(c1) ∨ ¬B(c2)], so no assignment that satisfies the formula
    makes both the army-A variable of [c1] and the army-B variable of [c2]
    true. *)
Theorem attack_clause_emitted (n k i j i' j' : Z) :
  1 ≤ n → 0 ≤ k ≤ n * n →
  on_board n i j → on_board n i' j' → (i, j) ≠ (i', j') → same_line i j i' j' →
  ∃ clauses,
    writeCNF_clauses n k = Ok clauses
    ∧ [- wVar n i j; - bVar n i' j'] ∈ clauses
    ∧ ∀ a, satisfies a clauses = true →
           ¬ (a (wVar n i j) = true ∧ a (bVar n i' j') = true).
Proof.
  intros Hn Hk Hc1 Hc2 Hne Hline.
  eexists. split; [apply writeCNF_clauses_eq; lia|].
  assert (Hin : [- wVar n i j; - bVar n i' j']
                ∈ at_most_list n k ++ at_least_list n k ++ attack_list n ++ cell_list n).
  { rewrite !elem_of_app. right; right; left.
    apply elem_of_attack_list. by exists i, j, i', j'. }
  split; [done|]. intros a Hsat.
  pose proof (wVar_bounds n i j Hc1). pose proof (bVar_bounds n i' j' Hc2).
  apply clause_true_pair; [lia|nia|]. by eapply satisfies_elem.
Qed.

Lemma attack_clause_emitted_witness :
  (1 ≤ 2 ∧ 0 ≤ 1 ≤ 2 * 2 ∧ on_board 2 0 0 ∧ on_board 2 1 1
   ∧ (0, 0) ≠ (1, 1) ∧ same_line 0 0 1 1)
  ∧ ∃ clauses,
      writeCNF_clauses 2 1 = Ok clauses
      ∧ [- wVar 2 0 0; - bVar 2 1 1] ∈ clauses
      ∧ ∀ a, satisfies a clauses = true →
             ¬ (a (wVar 2 0 0) = true ∧ a (bVar 2 1 1) = true).
Proof.
  assert (H1 : 1 ≤ 2) by lia.
  assert (H2 : 0 ≤ 1 ≤ 2 * 2) by lia.
  assert (H3 : on_board 2 0 0) by (unfold on_board; lia).
  assert (H4 : on_board 2 1 1) by (unfold on_board; lia).
  assert (H5 : (0, 0) ≠ (1, 1)) by (intros [=]).
  assert (H6 : same_line 0 0 1 1) by (unfold same_line; lia).
  split; [done|]. exact (attack_clause_emitted 2 1 0 0 1 1 H1 H2 H3 H4 H5 H6).
Defined.

(** C2. For [n ≥ 1] the formula of [writeCNF(n, 0)] is satisfied by the
    assignment that makes every variable false, and no assignment satisfies
    the formula of [writeCNF(n, n²)]. *)
Theorem boundary_formulas (n : Z) :
  1 ≤ n →
  (∃ clauses, writeCNF_clauses n 0 = Ok clauses
              ∧ satisfies (λ _, false) clauses = true)
  ∧ (∃ clauses, writeCNF_clauses n (n * n) = Ok clauses
                ∧ ∀ a, satisfies a clauses = false).
Proof.
  intros Hn. split.
  - eexists. split; [apply writeCNF_clauses_eq; nia|].
    apply satisfies_Forall. rewrite !Forall_app. repeat split.
    + unfold at_most_list. rewrite Forall_app. split; apply Forall_forall;
        intros c [Hlen Hlit]%elem_of_card_family;
        (destruct c as [|l c]; [done|]);
        destruct (Hlit l ltac:(by left)) as (i & j & Hij & ->);
        apply (clause_true_all_false _ _ ltac:(by left)).
      * pose proof (wVar_bounds n i j Hij). lia.
      * pose proof (bVar_bounds n i j Hij). nia.
    + unfold at_least_list.
      rewrite !card_family_too_long by (rewrite <- Z2Nat.inj_mul by lia; lia).
      by apply Forall_nil.
    + apply Forall_forall.
      intros c (i & j & i' & j' & Hij & _ & _ & _ & ->)%elem_of_attack_list.
      pose proof (wVar_bounds n i j Hij).
      apply (clause_true_all_false _ (- wVar n i j)); [by left|lia].
    + apply Forall_forall. intros c (i & j & Hij & ->)%elem_of_cell_list.
      pose proof (wVar_bounds n i j Hij).
      apply (clause_true_all_false _ (- wVar n i j)); [by left|lia].
  - eexists. split; [apply writeCNF_clauses_eq; nia|].
    intros a. apply not_true_is_false. intros Hsat.
    assert (H00 : on_board n 0 0) by (unfold on_board; lia).
    pose proof (wVar_bounds n 0 0 H00). pose proof (bVar_bounds n 0 0 H00).
    assert (Hw : clause_true a [wVar n 0 0] = true).
    { apply (satisfies_elem _ _ _ Hsat). rewrite !elem_of_app. right; left.
      unfold at_least_list. rewrite elem_of_app. left.
      replace (Z.to_nat (n * n - n * n + 1)) with 1%nat by lia.
      apply (card_family_unit n 0 0 (λ '(i, j), wVar n i j) H00). }
    assert (Hb : clause_true a [bVar n 0 0] = true).
    { apply (satisfies_elem _ _ _ Hsat). rewrite !elem_of_app. right; left.
      unfold at_least_list. rewrite elem_of_app. right.
      replace (Z.to_nat (n * n - n * n + 1)) with 1%nat by lia.
      apply (card_family_unit n 0 0 (λ '(i, j), bVar n i j) H00). }
    assert (Hx : clause_true a [- wVar n 0 0; - bVar n 0 0] = true).
    { apply (satisfies_elem _ _ _ Hsat). rewrite !elem_of_app. do 3 right.
      apply elem_of_cell_list. by exists 0, 0. }
    unfold clause_true in Hw, Hb. simpl in Hw, Hb.
    rewrite lit_true_pos, orb_false_r in Hw by lia.
    rewrite lit_true_pos, orb_false_r in Hb by nia.
    apply clause_true_pair in Hx; [|lia|nia]. by apply Hx.
Qed.

Lemma boundary_formulas_witness :
  1 ≤ 2 ∧
  ((∃ clauses, writeCNF_clauses 2 0 = Ok clauses
               ∧ satisfies (λ _, false) clauses = true)
   ∧ (∃ clauses, writeCNF_clauses 2 (2 * 2) = Ok clauses
                 ∧ ∀ a, satisfies a clauses = false)).
Proof. split; [lia|]. apply (boundary_formulas 2). lia. Defined.

(** Within the range of [k] no clause family has an empty clause or a
    literal outside [1 .. 2n²]. *)
Lemma families_in_range (n k : Z) :
  1 ≤ n → 0 ≤ k ≤ n * n →
  Forall (λ c, c ≠ [] ∧ Forall (literal_in (2 * n * n)) c)
    (at_most_list n k ++ at_least_list n k ++ attack_list n ++ cell_list n).
Proof.
  intros Hn Hk.
  assert (Hcard : ∀ (r : nat) (lit : Z * Z → Z),
    (0 < r)%nat →
    (∀ i j, on_board n i j → literal_in (2 * n * n) (lit (i, j))) →
    Forall (λ c, c ≠ [] ∧ Forall (literal_in (2 * n * n)) c)
      ((λ combi : list (Z * Z), lit <$> combi) <$> combs (cells n) r)).
  { intros r lit Hr Hlit. apply Forall_forall.
    intros c [Hlen Hc]%elem_of_card_family. split.
    - intros ->. simpl in Hlen. lia.
    - apply Forall_forall. intros l (i & j & Hij & ->)%Hc. by apply Hlit. }
  assert (Hw : ∀ i j, on_board n i j →
    literal_in (2 * n * n) (wVar n i j) ∧ literal_in (2 * n * n) (- wVar n i j)).
  { intros i j Hij. pose proof (wVar_bounds n i j Hij). unfold literal_in. lia. }
  assert (Hb : ∀ i j, on_board n i j →
    literal_in (2 * n * n) (bVar n i j) ∧ literal_in (2 * n * n) (- bVar n i j)).
  { intros i j Hij. pose proof (bVar_bounds n i j Hij). unfold literal_in. nia. }
  rewrite !Forall_app. unfold at_most_list, at_least_list. rewrite !Forall_app.
  repeat split.
  - apply Hcard; [lia|]. intros i j Hij. by apply Hw.
  - apply Hcard; [lia|]. intros i j Hij. by apply Hb.
  - apply Hcard; [lia|]. intros i j Hij. by apply Hw.
  - apply Hcard; [lia|]. intros i j Hij. by apply Hb.
  - apply Forall_forall.
    intros c (i & j & i' & j' & Hij & Hij' & _ & _ & ->)%elem_of_attack_list.
    split; [done|]. rewrite !Forall_cons. by split; [apply Hw|split; [apply Hb|]].
  - apply Forall_forall. intros c (i & j & Hij & ->)%elem_of_cell_list.
    split; [done|]. rewrite !Forall_cons. by split; [apply Hw|split; [apply Hb|]].
Qed.

(** C10. For [n ≥ 1] and [0 ≤ k ≤ n²] no clause of [writeCNF(n, k)] is
    empty, and every literal of every clause is a non-zero integer whose
    absolute value lies in [1 .. 2n²], the range the header declares. *)
Theorem literals_in_range (n k : Z) :
  1 ≤ n → 0 ≤ k ≤ n * n →
  ∃ clauses,
    writeCNF_clauses n k = Ok clauses
    ∧ Forall (λ c, c ≠ [] ∧ Forall (literal_in (2 * n * n)) c) clauses.
Proof.
  intros Hn Hk. eexists. split; [apply writeCNF_clauses_eq; lia|].
  by apply families_in_range.
Qed.

Lemma literals_in_range_witness :
  (1 ≤ 2 ∧ 0 ≤ 1 ≤ 2 * 2)
  ∧ ∃ clauses,
      writeCNF_clauses 2 1 = Ok clauses
      ∧ Forall (λ c, c ≠ [] ∧ Forall (literal_in (2 * 2 * 2)) c) clauses.
Proof.
  assert (H1 : 1 ≤ 2) by lia.
  assert (H2 : 0 ≤ 1 ≤ 2 * 2) by lia.
  split; [done|]. exact (literals_in_range 2 1 H1 H2).
Defined.

(** ** Parameters out of range *)

(** C5, as the code has it. For [n ≥ 1]: with [k = -1] or [k = n² + 1]
    [writeCNF] does not raise and writes a formula that has an empty
    clause, which no assignment satisfies; with [k < -1] or [k > n² + 1]
    it raises an exception before the file is opened and writes nothing;
    with [k < -1] and a size [k + 1] that fits C's [ssize_t] on every
    platform, the exception is the [ValueError] that
    [itertools.combinations] raises for a negative size. (Which exception
    a larger size gives is not said: [combinations] then fails on the size
    itself or on its memory.) *)
Theorem writeCNF_out_of_range (n k : Z) (outputFile : string) (fs : gmap string string) :
  1 ≤ n →
  (k = -1 ∨ k = n * n + 1 →
     ∃ clauses,
       writeCNF_clauses n k = Ok clauses
       ∧ [] ∈ clauses
       ∧ (∀ a, satisfies a clauses = false)
       ∧ writeCNF n k outputFile fs
         = Ok (<[outputFile := dimacs (2 * n * n) clauses]> fs))
  ∧ (k < -1 ∨ n * n + 1 < k → ∃ e, writeCNF n k outputFile fs = Raise e)
  ∧ (- 2 ^ 31 ≤ k + 1 < 0 → writeCNF n k outputFile fs = Raise ValueError).
Proof.
  intros Hn. split; [|split].
  - intros Hk. eexists. split; [apply writeCNF_clauses_eq; lia|].
    assert (Hin : [] ∈ at_most_list n k ++ at_least_list n k
                       ++ attack_list n ++ cell_list n).
    { rewrite !elem_of_app. destruct Hk as [->| ->].
      - left. unfold at_most_list. rewrite elem_of_app. left.
        replace (Z.to_nat (-1 + 1)) with 0%nat by lia.
        rewrite combs_nil_r. by left.
      - right; left. unfold at_least_list. rewrite elem_of_app. left.
        replace (Z.to_nat (n * n - (n * n + 1) + 1)) with 0%nat by lia.
        rewrite combs_nil_r. by left. }
    split; [done|]. split.
    + intros a. apply not_true_is_false. intros Hsat.
      by pose proof (satisfies_elem _ _ _ Hsat Hin).
    + unfold writeCNF. by rewrite writeCNF_clauses_eq by lia.
  - intros Hk. exists ValueError. unfold writeCNF. by rewrite writeCNF_clauses_raise.
  - intros Hk. unfold writeCNF. by rewrite writeCNF_clauses_raise by lia.
Qed.

Lemma writeCNF_out_of_range_witness :
  1 ≤ 1 ∧
  ((-1 = -1 ∨ -1 = 1 * 1 + 1 →
     ∃ clauses,
       writeCNF_clauses 1 (-1) = Ok clauses
       ∧ [] ∈ clauses
       ∧ (∀ a, satisfies a clauses = false)
       ∧ writeCNF 1 (-1) "tmp.cnf" ∅
         = Ok (<["tmp.cnf" := dimacs (2 * 1 * 1) clauses]> ∅))
  ∧ (-1 < -1 ∨ 1 * 1 + 1 < -1 → ∃ e, writeCNF 1 (-1) "tmp.cnf" ∅ = Raise e)
  ∧ (- 2 ^ 31 ≤ -1 + 1 < 0 → writeCNF 1 (-1) "tmp.cnf" ∅ = Raise ValueError)).
Proof.
  assert (H1 : 1 ≤ 1) by lia.
  split; [done|]. exact (writeCNF_out_of_range 1 (-1) "tmp.cnf" ∅ H1).
Defined.

(** With [n = 1] and [k = -2], a [k] outside [[0, n²]], [writeCNF] raises. *)
Lemma writeCNF_out_of_range_counterexample :
  1 ≤ 1 ∧ -2 < 0 ∧ writeCNF 1 (-2) "tmp.cnf" ∅ = Raise ValueError.
Proof. repeat split; lia. Qed.

(** With [n = 1] and [k = 3], above [n²], it raises as well. *)
Example writeCNF_above_range : writeCNF 1 3 "tmp.cnf" ∅ = Raise ValueError.
Proof. reflexivity. Qed.

(** ** Determinism *)

(** C6. For [n ≥ 1] and [0 ≤ k ≤ n²] there is one text that every call
    [writeCNF(n, k, _)] writes, whatever the path and whatever the files
    held before; so a second call with the same [(n, k)] writes the same
    bytes, and repeating the call on the same path changes nothing. *)
Theorem writeCNF_deterministic (n k : Z) :
  1 ≤ n → 0 ≤ k ≤ n * n →
  ∃ text,
    (∀ outputFile fs, writeCNF n k outputFile fs = Ok (<[outputFile := text]> fs))
    ∧ (∀ outputFile fs fs',
         writeCNF n k outputFile fs = Ok fs' →
         fs' !! outputFile = Some text ∧ writeCNF n k outputFile fs' = Ok fs').
Proof.
  intros Hn Hk.
  exists (dimacs (2 * n * n)
            (at_most_list n k ++ at_least_list n k ++ attack_list n ++ cell_list n)).
  assert (Hrun : ∀ outputFile fs, writeCNF n k outputFile fs
    = Ok (<[outputFile := dimacs (2 * n * n)
            (at_most_list n k ++ at_least_list n k ++ attack_list n ++ cell_list n)]> fs)).
  { intros outputFile fs. unfold writeCNF. by rewrite writeCNF_clauses_eq by lia. }
  split; [done|]. intros outputFile fs fs'. rewrite !Hrun. intros [= <-].
  split; [by rewrite lookup_insert_eq|]. by rewrite insert_insert_eq.
Qed.

Lemma writeCNF_deterministic_witness :
  (1 ≤ 2 ∧ 0 ≤ 1 ≤ 2 * 2)
  ∧ ∃ text,
      (∀ outputFile fs, writeCNF 2 1 outputFile fs = Ok (<[outputFile := text]> fs))
      ∧ (∀ outputFile fs fs',
           writeCNF 2 1 outputFile fs = Ok fs' →
           fs' !! outputFile = Some text ∧ writeCNF 2 1 outputFile fs' = Ok fs').
Proof.
  assert (H1 : 1 ≤ 2) by lia.
  assert (H2 : 0 ≤ 1 ≤ 2 * 2) by lia.
  split; [done|]. exact (writeCNF_deterministic 2 1 H1 H2).
Defined.

(** ** The decoder *)

(** What one iteration establishes, and no iteration destroys, holds after
    the loop. *)
Lemma for_reaches {A S : Type} (R : S → Prop) (xs : list A) (body : A → S → S)
    (s : S) (x : A) :
  x ∈ xs → (∀ s, R (body x s)) → (∀ y s, R s → R (body y s)) →
  R (for_ xs body s).
Proof.
  intros Hx Hset Hkeep. revert s.
  induction xs as [|y xs IH]; intros s; [by apply elem_of_nil in Hx|].
  rewrite for_cons. apply elem_of_cons in Hx as [<-|Hx].
  - apply for_invariant; [apply Hset|]. intros z t _. apply Hkeep.
  - by apply IH.
Qed.

Lemma for_append_fun {A B : Type} (xs : list A) (body : A → list B → list B)
    (f : A → B) (s : list B) :
  (∀ x s, x ∈ xs → body x s = append (f x) s) →
  for_ xs body s = s ++ (f <$> xs).
Proof.
  intros Hbody. rewrite (for_appends xs body (λ x, [f x])); [|done].
  by f_equal.
Qed.

Lemma elem_of_trueVars (model : list Z) (v : Z) :
  0 < v →
  v ∈ (list_to_set (filter (λ v, 0 < v) model) : gset Z) ↔ v ∈ model.
Proof.
  intros Hv. rewrite elem_of_list_to_set, list_elem_of_filter.
  split; [by intros [_ ?]|by intros ?].
Qed.

(** The cells in the two sets are the cells of the board whose army-A,
    respectively army-B, variable is in [trueVars]. *)
Lemma decode_positions_spec (n : Z) (trueVars : gset Z) (i j : Z) :
  ((i, j) ∈ (decode_positions n trueVars).1 ↔ on_board n i j ∧ wVar n i j ∈ trueVars)
  ∧ ((i, j) ∈ (decode_positions n trueVars).2 ↔ on_board n i j ∧ bVar n i j ∈ trueVars).
Proof.
  set (sound (s : gset (Z * Z) * gset (Z * Z)) :=
    (∀ p, p ∈ s.1 → on_board n p.1 p.2 ∧ wVar n p.1 p.2 ∈ trueVars)
    ∧ (∀ p, p ∈ s.2 → on_board n p.1 p.2 ∧ bVar n p.1 p.2 ∈ trueVars)).
  assert (Hsound : sound (decode_positions n trueVars)).
  { unfold decode_positions. apply for_invariant.
    - split; intros p Hp; simpl in Hp; by apply not_elem_of_empty in Hp.
    - intros a s Ha%elem_of_range Hs. apply for_invariant; [done|].
      intros b [w bl] Hb%elem_of_range [Hw Hbl]. unfold decodeSolution_ids.
      fold (wVar n a b). fold (bVar n a b). split; simpl in *.
      + case_bool_decide; [|done].
        intros p [Hp| ->%elem_of_singleton]%elem_of_union; [by apply Hw|done].
      + case_bool_decide; [|done].
        intros p [Hp| ->%elem_of_singleton]%elem_of_union; [by apply Hbl|done]. }
  destruct Hsound as [Hw Hb]. split; split.
  - intros Hin. apply (Hw (i, j) Hin).
  - intros [[Hi Hj] Hv]. unfold decode_positions.
    apply (for_reaches (λ s, (i, j) ∈ s.1) _ _ _ i); [by apply elem_of_range| |].
    + intros s. apply (for_reaches (λ s, (i, j) ∈ s.1) _ _ _ j); [by apply elem_of_range| |].
      * intros [w bl]. unfold decodeSolution_ids. fold (wVar n i j). simpl.
        rewrite bool_decide_true by done. apply elem_of_union. right.
        by apply elem_of_singleton.
      * intros b [w bl] Hin. unfold decodeSolution_ids. simpl in *.
        case_bool_decide; [|done]. apply elem_of_union. by left.
    + intros a s Hin. apply (for_invariant (λ s, (i, j) ∈ s.1)); [done|].
      intros b [w bl] _ Hin'. unfold decodeSolution_ids. simpl in *.
      case_bool_decide; [|done]. apply elem_of_union. by left.
  - intros Hin. apply (Hb (i, j) Hin).
  - intros [[Hi Hj] Hv]. unfold decode_positions.
    apply (for_reaches (λ s, (i, j) ∈ s.2) _ _ _ i); [by apply elem_of_range| |].
    + intros s. apply (for_reaches (λ s, (i, j) ∈ s.2) _ _ _ j); [by apply elem_of_range| |].
      * intros [w bl]. unfold decodeSolution_ids. fold (bVar n i j). simpl.
        rewrite (bool_decide_true (bVar n i j ∈ trueVars)) by done.
        apply elem_of_union. right. by apply elem_of_singleton.
      * intros b [w bl] Hin. unfold decodeSolution_ids. simpl in *.
        case_bool_decide; [|done]. apply elem_of_union. by left.
    + intros a s Hin. apply (for_invariant (λ s, (i, j) ∈ s.2)); [done|].
      intros b [w bl] _ Hin'. unfold decodeSolution_ids. simpl in *.
      case_bool_decide; [|done]. apply elem_of_union. by left.
Qed.

(** C8. [decodeSolution] returns the board of the specification: row by
    row, each cell shown as the army-A symbol when its army-A ID is in the
    assignment, else as the army-B symbol when its army-B ID is, else as the
    empty symbol. It is a total function, so it never raises; when both IDs
    are in the assignment the army-A symbol is shown, and a cell neither of
    whose IDs is in the assignment is shown empty. *)
Theorem decodeSolution_board (n : Z) (model : list Z) :
  decodeSolution n model = board_text n model
  ∧ ∀ i j,
      (wVar n i j ∈ model → cell_symbol n model i j = "W")
      ∧ (wVar n i j ∉ model → bVar n i j ∈ model → cell_symbol n model i j = "B")
      ∧ (wVar n i j ∉ model → bVar n i j ∉ model → cell_symbol n model i j = ".").
Proof.
  split.
  - unfold decodeSolution, board_text.
    fold (decode_positions n (list_to_set (filter (λ v, 0 < v) model))).
    pose proof (decode_positions_spec n (list_to_set (filter (λ v, 0 < v) model)))
      as Hpos.
    destruct (decode_positions n _) as [wPositions bPositions]. simpl in Hpos.
    f_equal.
    rewrite (for_append_fun _ _
      (λ i, join " " ((λ j, cell_symbol n model i j) <$> range n))); [done|].
    intros i board Hi%elem_of_range. f_equal. f_equal.
    rewrite (for_append_fun _ _ (λ j, cell_symbol n model i j)); [done|].
    intros j row Hj%elem_of_range.
    assert (Hij : on_board n i j) by done.
    pose proof (wVar_bounds n i j Hij). pose proof (bVar_bounds n i j Hij).
    destruct (Hpos i j) as [Hw Hb]. unfold cell_symbol. simpl.
    rewrite (bool_decide_ext ((i, j) ∈ wPositions) (wVar n i j ∈ model)).
    2:{ rewrite Hw, elem_of_trueVars by lia. split; [by intros [_ ?]|done]. }
    rewrite (bool_decide_ext ((i, j) ∈ bPositions) (bVar n i j ∈ model)).
    2:{ rewrite Hb, elem_of_trueVars by nia. split; [by intros [_ ?]|done]. }
    by repeat case_bool_decide.
  - intros i j. unfold cell_symbol. simpl.
    repeat split; intros; repeat case_bool_decide; done.
Qed.

(** ** The entry point *)

(** C9. When the instance file or the arguments give [n = 0] or [k = 0],
    [main] takes the value for a missing one: it prints
    [Please specify n and k.] and exits with status 1, and the files are
    as before, so nothing has been encoded. *)
Theorem main_zero_rejected (subprocess_run : list string → gmap string string → result string)
    (args : Args) (fs : gmap string string) (n k : option Z) :
  read_nk args fs = Ok (n, k) →
  n = Some 0 ∨ k = Some 0 →
  main subprocess_run args fs
  = {| printed := ["Please specify n and k."]; ended := SysExit 1; files := fs |}.
Proof.
  intros Hread Hzero. unfold main. rewrite Hread.
  destruct Hzero as [-> | ->]; simpl; [done|].
  by rewrite orb_true_r.
Qed.

Lemma main_zero_rejected_witness :
  (read_nk {| args_n := Some 5; args_k := Some 0; args_cnf := None;
              args_solve := true; args_stats := false; args_instance := None |} ∅
   = Ok (Some 5, Some 0)
   ∧ (Some 5 = Some 0 ∨ Some 0 = Some 0 :> option Z))
  ∧ main (λ _ _, Ok "s SATISFIABLE")
      {| args_n := Some 5; args_k := Some 0; args_cnf := None;
         args_solve := true; args_stats := false; args_instance := None |} ∅
    = {| printed := ["Please specify n and k."]; ended := SysExit 1; files := ∅ |}.
Proof.
  assert (H1 : read_nk {| args_n := Some 5; args_k := Some 0; args_cnf := None;
              args_solve := true; args_stats := false; args_instance := None |} ∅
               = Ok (Some 5, Some 0)) by reflexivity.
  assert (H2 : Some 5 = Some 0 ∨ Some 0 = Some 0 :> option Z) by (right; reflexivity).
  split; [done|].
  exact (main_zero_rejected (λ _ _, Ok "s SATISFIABLE") _ ∅ (Some 5) (Some 0) H1 H2).
Defined.

(** The same through an instance file that holds [3] and [0]. *)
Example main_zero_instance_file :
  main (λ _ _, Ok "s SATISFIABLE")
    {| args_n := None; args_k := None; args_cnf := None;
       args_solve := true; args_stats := false; args_instance := Some "queens.txt" |}
    {[ "queens.txt" := "3" +:+ String LF "0" +:+ String LF "" ]}
  = {| printed := ["Please specify n and k."]; ended := SysExit 1;
       files := {[ "queens.txt" := "3" +:+ String LF "0" +:+ String LF "" ]} |}.
Proof. reflexivity. Qed.

(** With [k ≠ 0] the same arguments reach the encoder. *)
Example main_one_encodes :
  files (main (λ _ _, Ok "s UNSATISFIABLE")
    {| args_n := Some 1; args_k := Some 1; args_cnf := None;
       args_solve := false; args_stats := false; args_instance := None |} ∅)
  !! "tmp.cnf"
  = Some ("p cnf 2 3" +:+ String LF "1 0" +:+ String LF "2 0"
          +:+ String LF "-1 -2 0" +:+ String LF "").
Proof. reflexivity. Qed.

(** ** The solver adapter *)

(** [int] raises nothing but [ValueError]. *)
Lemma int_result (s : string) : (∃ z, int s = Ok z) ∨ int s = Raise ValueError.
Proof.
  unfold int.
  destruct (match rstrip is_int_space (lstrip is_int_space s) with
            | String "-" r => (true, r)
            | String "+" r => (false, r)
            | _ => (false, rstrip is_int_space (lstrip is_int_space s))
            end) as [neg body].
  destruct (digits_ok false body); [|by right].
  destruct (NilEmpty.uint_of_string (drop_underscores body)); [|by right].
  left. by eexists.
Qed.

(** The literals of a value line are appended to the model, unless a word
    of the line is not an integer. *)
Lemma value_words_result (words : list string) (model : list Z) :
  (∃ model',
     for_r words (λ p model,
       val ← int p;
       if bool_decide (val ≠ 0) then mret (append val model) else mret model) model
     = Ok model')
  ∨ for_r words (λ p model,
       val ← int p;
       if bool_decide (val ≠ 0) then mret (append val model) else mret model) model
    = Raise ValueError.
Proof.
  revert model. induction words as [|p words IH]; intros model; cbn [for_r].
  - left. by eexists.
  - destruct (int_result p) as [[z ->]| ->]; [|by right].
    cbn [mbind result_bind mret result_ret].
    case_bool_decide; apply IH.
Qed.

(** A line that is no status line leaves the verdict as it is. *)
Lemma solveCNF_line_no_status (l : string) (sat : option bool) (model : list Z) :
  startswith l "s " = false →
  (∃ model', solveCNF_line l (sat, model) = Ok (sat, model'))
  ∨ solveCNF_line l (sat, model) = Raise ValueError.
Proof.
  intros Hs. unfold solveCNF_line. rewrite Hs.
  destruct (startswith l "v "); [|left; by eexists].
  destruct (value_words_result (tail (split l)) model) as [[model' ->]| ->];
    [left; by eexists|by right].
Qed.

(** A line that is neither a status line nor a value line changes nothing. *)
Lemma solveCNF_line_other (l : string) (st : option bool * list Z) :
  startswith l "s " = false → startswith l "v " = false →
  solveCNF_line l st = Ok st.
Proof. intros Hs Hv. unfold solveCNF_line. destruct st. by rewrite Hs, Hv. Qed.

Lemma solveCNF_lines_no_status (output : list string) (sat : option bool) (model : list Z) :
  (∀ l, l ∈ output → startswith l "s " = false) →
  (∃ model', for_r output solveCNF_line (sat, model) = Ok (sat, model'))
  ∨ for_r output solveCNF_line (sat, model) = Raise ValueError.
Proof.
  revert model. induction output as [|l output IH]; intros model Hs; cbn [for_r].
  - left. by eexists.
  - destruct (solveCNF_line_no_status l sat model) as [[model' ->]| ->];
      [apply Hs; by left| |by right].
    cbn [mbind result_bind]. apply IH. intros l' Hl'. apply Hs. by right.
Qed.

Lemma solveCNF_lines_other (output : list string) (st : option bool * list Z) :
  (∀ l, l ∈ output → startswith l "s " = false) →
  (∀ l, l ∈ output → startswith l "v " = false) →
  for_r output solveCNF_line st = Ok st.
Proof.
  induction output as [|l output IH]; intros Hs Hv; cbn [for_r]; [done|].
  rewrite solveCNF_line_other by (apply Hs || apply Hv; by left).
  cbn [mbind result_bind].
  apply IH; intros l' Hl'; [apply Hs|apply Hv]; by right.
Qed.

Lemma filter_bind_if {A : Type} (cond : A → bool) (l : list A) :
  (x ← l; if cond x then [x] else []) = filter (λ x, cond x = true) l.
Proof.
  induction l as [|x l IH]; [done|].
  rewrite bind_cons, filter_cons, IH. destruct (cond x); by destruct (decide _).
Qed.

Lemma stats_printed (output : list string) :
  for_ output (λ l printed,
    if startswith l "c " then append l printed else printed)
    [String LF "Solver Stats:"]
  = String LF "Solver Stats:" :: filter (λ l, startswith l "c " = true) output.
Proof. by rewrite for_append_if, filter_bind_if. Qed.

Lemma value_words_raise (words : list string) (model : list Z) (e : exn) :
  for_r words (λ p model,
    val ← int p;
    if bool_decide (val ≠ 0) then mret (append val model) else mret model) model
  = Raise e
  ↔ e = ValueError ∧ ∃ w, w ∈ words ∧ int w = Raise ValueError.
Proof.
  revert model. induction words as [|p words IH]; intros model; cbn [for_r].
  - split; [done|]. intros (_ & w & Hw & _). by apply elem_of_nil in Hw.
  - destruct (int_result p) as [[z Hp]|Hp]; rewrite Hp;
      cbn [mbind result_bind mret result_ret].
    + assert (Hrest : ∀ m, for_r words (λ p model,
          val ← int p;
          if bool_decide (val ≠ 0) then mret (append val model) else mret model) m
        = Raise e
        ↔ e = ValueError ∧ ∃ w, w ∈ p :: words ∧ int w = Raise ValueError).
      { intros m. rewrite IH. split.
        - intros (-> & w & Hw & Hbad). split; [done|]. exists w. split; [by right|done].
        - intros (-> & w & Hw & Hbad). split; [done|]. exists w. split; [|done].
          apply elem_of_cons in Hw as [->|Hw]; [congruence|done]. }
      case_bool_decide; apply Hrest.
    + split.
      * intros [= <-]. split; [done|]. exists p. split; [by left|done].
      * by intros (-> & _).
Qed.

Lemma solveCNF_line_raise (l : string) (st : option bool * list Z) (e : exn) :
  solveCNF_line l st = Raise e
  ↔ e = ValueError ∧ startswith l "v " = true
    ∧ ∃ w, w ∈ tail (split l) ∧ int w = Raise ValueError.
Proof.
  unfold solveCNF_line. destruct st as [sat model].
  destruct (startswith l "v ").
  - destruct (for_r (tail (split l)) _ model) as [m|e'] eqn:Hwords.
    + cbn [mbind result_bind mret result_ret]. split; [done|].
      intros (-> & _ & Hbad).
      assert (Hr : for_r (tail (split l)) (λ p model,
          val ← int p;
          if bool_decide (val ≠ 0) then mret (append val model) else mret model) model
        = Raise ValueError) by (by apply value_words_raise).
      congruence.
    + cbn [mbind result_bind]. apply value_words_raise in Hwords as [-> Hbad].
      split; [by intros [= <-]|by intros (-> & _)].
  - cbn [mret result_ret]. split; [done|]. by intros (_ & ? & _).
Qed.

Lemma solveCNF_lines_raise (output : list string) (st : option bool * list Z) (e : exn) :
  for_r output solveCNF_line st = Raise e
  ↔ e = ValueError
    ∧ ∃ l, l ∈ output ∧ startswith l "v " = true
           ∧ ∃ w, w ∈ tail (split l) ∧ int w = Raise ValueError.
Proof.
  revert st. induction output as [|l output IH]; intros st; cbn [for_r].
  - split; [done|]. intros (_ & l & Hl & _). by apply elem_of_nil in Hl.
  - destruct (solveCNF_line l st) as [st'|e'] eqn:Hl; cbn [mbind result_bind].
    + rewrite IH. split.
      * intros (-> & l' & Hl' & Hbad). split; [done|]. exists l'. split; [by right|done].
      * intros (-> & l' & Hl' & Hv & Hbad). split; [done|]. exists l'.
        apply elem_of_cons in Hl' as [->|Hl']; [|done].
        assert (Hr : solveCNF_line l st = Raise ValueError)
          by (by apply solveCNF_line_raise).
        congruence.
    + apply solveCNF_line_raise in Hl as (-> & Hv & Hbad). split.
      * intros [= <-]. split; [done|]. exists l. split; [by left|done].
      * by intros (-> & _).
Qed.






(** The value line of that output is read with the signs of its literals. *)
Example value_line_signs :
  solveCNF (λ _ _, Ok ("c no answer" +:+ String LF "v 1 -2 0")) "tmp.cnf" true ∅
  = Ok ([String LF "Solver Stats:"; "c no answer"], (None, [1; -2])).
Proof. reflexivity. Qed.


(** ** Strings *)

Lemma string_app_nil_l (s : string) : "" +:+ s = s.
Proof. reflexivity. Qed.

Lemma string_app_cons (c : ascii) (s1 s2 : string) :
  String c s1 +:+ s2 = String c (s1 +:+ s2).
Proof. reflexivity. Qed.

Lemma string_app_assoc (s1 s2 s3 : string) :
  (s1 +:+ s2) +:+ s3 = s1 +:+ (s2 +:+ s3).
Proof.
  induction s1 as [|c s1 IH]; [done|].
  by rewrite !string_app_cons, IH.
Qed.

Lemma string_app_nil_r (s : string) : s +:+ "" = s.
Proof.
  induction s as [|c s IH]; [done|].
  by rewrite string_app_cons, IH.
Qed.

Lemma all_chars_app (P : ascii → bool) (s1 s2 : string) :
  all_chars P (s1 +:+ s2) = all_chars P s1 && all_chars P s2.
Proof.
  induction s1 as [|c s1 IH]; [done|].
  rewrite string_app_cons. simpl. by rewrite IH, andb_assoc.
Qed.

Lemma all_chars_impl (P Q : ascii → bool) (s : string) :
  (∀ c, P c = true → Q c = true) → all_chars P s = true → all_chars Q s = true.
Proof.
  intros HPQ. induction s as [|c s IH]; simpl; [done|].
  intros [Hc Hs]%andb_true_iff. by rewrite (HPQ c Hc), IH.
Qed.

(** A digit or a minus sign is no white space and no line boundary. *)
Lemma is_int_char_plain (c : ascii) :
  is_int_char c = true →
  is_space c = false ∧ is_linebreak c = false ∧ is_int_space c = false
  ∧ Ascii.eqb c "_" = false.
Proof.
  destruct c as [[] [] [] [] [] [] [] []]; try discriminate; intros _; by vm_compute.
Qed.

Lemma is_digit_int_char (c : ascii) : is_digit c = true → is_int_char c = true.
Proof. intros Hc. unfold is_int_char. by rewrite Hc. Qed.

(** ** Printing and reading integers *)

Lemma string_of_uint_digits (d : Decimal.uint) :
  all_chars is_digit (NilEmpty.string_of_uint d) = true.
Proof. induction d; simpl; try done; by rewrite IHd. Qed.

Lemma string_of_uint_nonnil (d : Decimal.uint) :
  d ≠ Decimal.Nil → NilZero.string_of_uint d = NilEmpty.string_of_uint d.
Proof. by destruct d. Qed.

(** [str z], case by case. *)
Lemma str_cases (z : Z) :
  ∃ d, d ≠ Decimal.Nil
       ∧ ((str z = NilEmpty.string_of_uint d ∧ Z.to_int z = Decimal.Pos d)
          ∨ (str z = String "-" (NilEmpty.string_of_uint d)
             ∧ Z.to_int z = Decimal.Neg d)).
Proof.
  unfold str. destruct z as [|p|p]; simpl.
  - exists (Decimal.D0 Decimal.Nil). split; [done|]. by left.
  - exists (Pos.to_uint p).
    split; [apply DecimalPos.Unsigned.to_uint_nonnil|]. left.
    by rewrite string_of_uint_nonnil by apply DecimalPos.Unsigned.to_uint_nonnil.
  - exists (Pos.to_uint p).
    split; [apply DecimalPos.Unsigned.to_uint_nonnil|]. right.
    by rewrite string_of_uint_nonnil by apply DecimalPos.Unsigned.to_uint_nonnil.
Qed.

Lemma str_chars (z : Z) : all_chars is_int_char (str z) = true.
Proof.
  destruct (str_cases z) as (d & _ & [[-> _]|[-> _]]); simpl;
    apply (all_chars_impl is_digit), string_of_uint_digits;
    apply is_digit_int_char.
Qed.

Lemma str_nonempty (z : Z) : str z ≠ "".
Proof.
  destruct (str_cases z) as (d & Hd & [[-> _]|[-> _]]); [|done].
  by destruct d.
Qed.

Lemma lstrip_id (sp : ascii → bool) (s : string) :
  all_chars (λ c, negb (sp c)) s = true → lstrip sp s = s.
Proof.
  destruct s as [|c s]; simpl; [done|].
  intros [Hc _]%andb_true_iff. by apply negb_true_iff in Hc as ->.
Qed.

Lemma rstrip_id (sp : ascii → bool) (s : string) :
  all_chars (λ c, negb (sp c)) s = true → rstrip sp s = s.
Proof.
  induction s as [|c s IH]; simpl; [done|].
  intros [Hc Hs]%andb_true_iff. rewrite (IH Hs).
  apply negb_true_iff in Hc as ->. by destruct s.
Qed.

Lemma digits_ok_digits (s : string) (after_digit : bool) :
  all_chars is_digit s = true → s ≠ "" ∨ after_digit = true →
  digits_ok after_digit s = true.
Proof.
  revert after_digit. induction s as [|c s IH]; intros b Hs Hne; simpl.
  - by destruct Hne.
  - simpl in Hs. apply andb_true_iff in Hs as [-> Hs]. apply IH; [done|by right].
Qed.

Lemma drop_underscores_digits (s : string) :
  all_chars is_digit s = true → drop_underscores s = s.
Proof.
  induction s as [|c s IH]; simpl; [done|].
  intros [Hc Hs]%andb_true_iff.
  destruct (is_int_char_plain c (is_digit_int_char c Hc)) as (_ & _ & _ & ->).
  by rewrite IH.
Qed.

(** A string that starts with a digit has no sign. *)
Lemma no_sign (A : Type) (c : ascii) (r : string) (minus plus : string → A) (other : A) :
  is_digit c = true →
  match String c r with
  | String "-" r => minus r
  | String "+" r => plus r
  | _ => other
  end = other.
Proof.
  destruct c as [[] [] [] [] [] [] [] []]; try discriminate; done.
Qed.

(** [int(str(z))] is [z]. *)
Lemma int_str (z : Z) : int (str z) = Ok z.
Proof.
  unfold int.
  assert (Hplain : all_chars (λ c, negb (is_int_space c)) (str z) = true).
  { apply (all_chars_impl is_int_char), str_chars.
    intros c (_ & _ & -> & _)%is_int_char_plain. done. }
  rewrite (lstrip_id _ _ Hplain), (rstrip_id _ _ Hplain).
  pose proof (DecimalZ.of_to z) as Hz.
  destruct (str_cases z) as (d & Hd & [[-> Hint]|[-> Hint]]).
  - pose proof (string_of_uint_digits d) as Hdig.
    destruct (NilEmpty.string_of_uint d) as [|c r] eqn:Hstr; [by destruct d|].
    rewrite no_sign by (simpl in Hdig; by apply andb_true_iff in Hdig as [-> _]).
    rewrite digits_ok_digits by (done || by left).
    rewrite drop_underscores_digits by done.
    rewrite <- Hstr, NilEmpty.usu. by rewrite <- Hint, Hz.
  - pose proof (string_of_uint_digits d) as Hdig.
    rewrite digits_ok_digits by (done || (left; by destruct d)).
    rewrite drop_underscores_digits by done.
    rewrite NilEmpty.usu. by rewrite <- Hint, Hz.
Qed.

(** ** Lines and words *)

Lemma splitlines_line (l rest : string) :
  all_chars (λ c, negb (is_linebreak c)) l = true →
  splitlines_from false (l +:+ String LF rest) = l :: splitlines_from false rest.
Proof.
  induction l as [|c l IH]; intros Hl.
  - done.
  - simpl in Hl. apply andb_true_iff in Hl as [Hc Hl].
    apply negb_true_iff in Hc.
    rewrite string_app_cons. cbn [splitlines_from andb].
    by rewrite Hc, (IH Hl).
Qed.

Lemma splitlines_lines (ls : list string) :
  Forall (λ l, all_chars (λ c, negb (is_linebreak c)) l = true) ls →
  splitlines_from false (foldr (λ l t, l +:+ String LF t) "" ls) = ls.
Proof.
  induction 1 as [|l ls Hl _ IH]; [done|].
  cbn [foldr]. by rewrite splitlines_line, IH.
Qed.

Lemma split_run_word (w rest : string) :
  all_chars (λ c, negb (is_space c)) w = true →
  split_run (w +:+ rest) = (w +:+ (split_run rest).1, (split_run rest).2).
Proof.
  induction w as [|c w IH]; intros Hw.
  - rewrite !string_app_nil_l. by destruct (split_run rest).
  - simpl in Hw. apply andb_true_iff in Hw as [Hc Hw].
    apply negb_true_iff in Hc.
    rewrite !string_app_cons. cbn [split_run]. by rewrite (IH Hw), Hc.
Qed.

Lemma split_run_blank (rest : string) :
  split_run (String " " rest) = ("", split rest).
Proof.
  cbn [split_run]. unfold split. destruct (split_run rest) as [w ws].
  by replace (is_space " ") with true by (by vm_compute).
Qed.

Lemma string_eqb_nonempty (w : string) : w ≠ "" → String.eqb w "" = false.
Proof. intros Hw. by apply String.eqb_neq. Qed.

(** A word, a blank, and the rest: the word, and the words of the rest. *)
Lemma split_word_blank (w rest : string) :
  w ≠ "" → all_chars (λ c, negb (is_space c)) w = true →
  split (w +:+ String " " rest) = w :: split rest.
Proof.
  intros Hne Hw. unfold split at 1.
  rewrite (split_run_word _ _ Hw), split_run_blank. cbn [fst snd].
  by rewrite string_app_nil_r, string_eqb_nonempty.
Qed.

Lemma split_word (w : string) :
  w ≠ "" → all_chars (λ c, negb (is_space c)) w = true → split w = [w].
Proof.
  intros Hne Hw. unfold split.
  rewrite <- (string_app_nil_r w) at 1. rewrite (split_run_word _ _ Hw).
  cbn [split_run fst snd]. by rewrite string_app_nil_r, string_eqb_nonempty.
Qed.

Lemma str_word (z : Z) :
  str z ≠ "" ∧ all_chars (λ c, negb (is_space c)) (str z) = true.
Proof.
  split; [apply str_nonempty|].
  apply (all_chars_impl is_int_char), str_chars.
  by intros c (-> & _)%is_int_char_plain.
Qed.

Lemma str_no_linebreak (z : Z) :
  all_chars (λ c, negb (is_linebreak c)) (str z) = true.
Proof.
  apply (all_chars_impl is_int_char), str_chars.
  by intros c (_ & -> & _)%is_int_char_plain.
Qed.

(** The words of a clause line: the literals as [str] prints them, then
    the sentinel. *)
Lemma split_clause_line (c : clause) :
  split (clause_line c) = (str <$> c) ++ ["0"].
Proof.
  unfold clause_line. induction c as [|x c IH]; [done|].
  destruct (str_word x) as [Hne Hw].
  destruct c as [|y c].
  - cbn [fmap list_fmap join app]. change (str x +:+ " 0") with (str x +:+ String " " "0").
    by rewrite split_word_blank.
  - change (join " " (str <$> x :: y :: c))
      with (str x +:+ " " +:+ join " " (str <$> y :: c)).
    rewrite !string_app_assoc.
    change (" " +:+ join " " (str <$> y :: c) +:+ " 0")
      with (String " " (join " " (str <$> y :: c) +:+ " 0")).
    rewrite split_word_blank by done. by rewrite IH.
Qed.

Lemma clause_line_no_linebreak (c : clause) :
  all_chars (λ ch, negb (is_linebreak ch)) (clause_line c) = true.
Proof.
  unfold clause_line. rewrite all_chars_app. apply andb_true_iff. split; [|done].
  induction c as [|x c IH]; [done|].
  destruct c as [|y c]; [apply str_no_linebreak|].
  change (join " " (str <$> x :: y :: c))
    with (str x +:+ " " +:+ join " " (str <$> y :: c)).
  rewrite !all_chars_app, str_no_linebreak, IH. done.
Qed.

Lemma header_line_no_linebreak (maxVar : Z) (numClauses : nat) :
  all_chars (λ ch, negb (is_linebreak ch)) (header_line maxVar numClauses) = true.
Proof.
  unfold header_line. by rewrite !all_chars_app, !str_no_linebreak.
Qed.

Lemma split_header_line (maxVar : Z) (numClauses : nat) :
  split (header_line maxVar numClauses)
  = ["p"; "cnf"; str maxVar; str (Z.of_nat numClauses)].
Proof.
  unfold header_line.
  destruct (str_word maxVar) as [Hne Hw].
  destruct (str_word (Z.of_nat numClauses)) as [Hne' Hw'].
  change ("p cnf " +:+ str maxVar +:+ " " +:+ str (Z.of_nat numClauses))
    with ("p" +:+ String " " ("cnf" +:+ String " "
            (str maxVar +:+ String " " (str (Z.of_nat numClauses))))).
  rewrite !split_word_blank by done. by rewrite split_word.
Qed.

(** ** The text of the CNF file *)

Lemma for_text {A : Type} (xs : list A) (g : A → string) (s : string) :
  for_ xs (λ x text, text +:+ g x) s = s +:+ foldr (λ x t, g x +:+ t) "" xs.
Proof.
  revert s. induction xs as [|x xs IH]; intros s.
  - cbn [for_ foldl foldr]. by rewrite string_app_nil_r.
  - rewrite for_cons, IH. cbn [foldr]. by rewrite string_app_assoc.
Qed.

(** The file: the header line, then a line for each clause, in order. *)
Lemma dimacs_eq (maxVar : Z) (clauses : list clause) :
  dimacs maxVar clauses
  = foldr (λ l t, l +:+ String LF t) ""
      (header_line maxVar (length clauses) :: (clause_line <$> clauses)).
Proof.
  unfold dimacs, header_line. rewrite for_text. cbn [foldr].
  rewrite !string_app_assoc. do 4 f_equal.
  rewrite string_app_nil_l, string_app_cons, string_app_nil_l. f_equal.
  induction clauses as [|c clauses IH]; [done|].
  cbn [foldr fmap list_fmap]. rewrite IH. unfold clause_line.
  rewrite !string_app_assoc. by do 2 f_equal.
Qed.

Lemma splitlines_dimacs (maxVar : Z) (clauses : list clause) :
  splitlines (dimacs maxVar clauses)
  = header_line maxVar (length clauses) :: (clause_line <$> clauses).
Proof.
  unfold splitlines. rewrite dimacs_eq. apply splitlines_lines.
  apply Forall_cons. split; [apply header_line_no_linebreak|].
  apply Forall_fmap, Forall_forall. intros c _. apply clause_line_no_linebreak.
Qed.

(** ** Reading the CNF file back *)

Lemma read_literals (c : clause) :
  mapM (λ t, to_option (int t)) ((str <$> c) ++ ["0"]) = Some (c ++ [0]).
Proof.
  induction c as [|x c IH].
  - done.
  - cbn [fmap list_fmap app mapM]. rewrite int_str. cbn [to_option].
    cbn [fmap list_fmap app] in IH. rewrite IH. done.
Qed.

Lemma read_clause_line (c : clause) :
  Forall (λ l, l ≠ 0) c → read_clause (clause_line c) = Some c.
Proof.
  intros Hc. unfold read_clause.
  rewrite split_clause_line, read_literals. cbn [mbind option_bind].
  rewrite reverse_app, reverse_singleton. cbn [app].
  assert (Hnz : forallb (λ l, negb (l =? 0)) (reverse c) = true).
  { apply forallb_forall. intros l Hl%list_elem_of_In.
    rewrite elem_of_reverse in Hl. rewrite Forall_forall in Hc. apply negb_true_iff, Z.eqb_neq. by apply Hc. }
  by rewrite Hnz, reverse_involutive.
Qed.

Lemma read_clause_lines (clauses : list clause) :
  Forall (λ c, Forall (λ l, l ≠ 0) c) clauses →
  mapM read_clause (clause_line <$> clauses) = Some clauses.
Proof.
  induction 1 as [|c clauses Hc _ IH]; [done|].
  cbn [fmap list_fmap mapM]. rewrite (read_clause_line c Hc).
  cbn [fmap list_fmap] in IH. by rewrite IH.
Qed.

Lemma read_dimacs_dimacs (maxVar : Z) (clauses : list clause) :
  Forall (λ c, Forall (λ l, l ≠ 0) c) clauses →
  read_dimacs (dimacs maxVar clauses)
  = Some (maxVar, Z.of_nat (length clauses), clauses).
Proof.
  intros Hc. unfold read_dimacs.
  rewrite splitlines_dimacs, split_header_line, !int_str.
  cbn [to_option mbind option_bind]. by rewrite (read_clause_lines _ Hc).
Qed.

(** C3. For [n ≥ 1] and [0 ≤ k ≤ n²] the file [writeCNF(n, k)] writes
    starts with the line [p cnf <maxVar> <numClauses>], where [maxVar] is
    [2n²] and [numClauses] is the number of lines that follow; the lines
    that follow are the clauses in order, each a white-space separated list
    of signed integers closed by the sentinel [0], so that a DIMACS reader
    gets back [2n²], the number of clause lines and the clauses. *)
Theorem dimacs_header_and_lines (n k : Z) :
  1 ≤ n → 0 ≤ k ≤ n * n →
  ∃ clauses text lines,
    writeCNF_clauses n k = Ok clauses
    ∧ (∀ outputFile fs, writeCNF n k outputFile fs = Ok (<[outputFile := text]> fs))
    ∧ splitlines text = header_line (2 * n ^ 2) (length lines) :: lines
    ∧ Forall2 (λ line c, read_clause line = Some c) lines clauses
    ∧ read_dimacs text = Some (2 * n ^ 2, Z.of_nat (length lines), clauses).
Proof.
  intros Hn Hk.
  set (clauses := at_most_list n k ++ at_least_list n k ++ attack_list n ++ cell_list n).
  assert (Hnz : Forall (λ c, Forall (λ l, l ≠ 0) c) clauses).
  { eapply Forall_impl; [by apply families_in_range|].
    intros c [_ Hc]. eapply Forall_impl; [exact Hc|]. by intros l [? _]. }
  exists clauses, (dimacs (2 * n * n) clauses), (clause_line <$> clauses).
  replace (2 * n ^ 2) with (2 * n * n) by lia.
  split; [apply writeCNF_clauses_eq; lia|]. split.
  { intros outputFile fs. unfold writeCNF. by rewrite writeCNF_clauses_eq by lia. }
  rewrite length_fmap. split; [apply splitlines_dimacs|]. split.
  - apply Forall2_fmap_l, Forall_Forall2_diag.
    eapply Forall_impl; [exact Hnz|]. intros c Hc. by apply read_clause_line.
  - by apply read_dimacs_dimacs.
Qed.

Lemma dimacs_header_and_lines_witness :
  (1 ≤ 2 ∧ 0 ≤ 1 ≤ 2 * 2)
  ∧ ∃ clauses text lines,
      writeCNF_clauses 2 1 = Ok clauses
      ∧ (∀ outputFile fs, writeCNF 2 1 outputFile fs = Ok (<[outputFile := text]> fs))
      ∧ splitlines text = header_line (2 * 2 ^ 2) (length lines) :: lines
      ∧ Forall2 (λ line c, read_clause line = Some c) lines clauses
      ∧ read_dimacs text = Some (2 * 2 ^ 2, Z.of_nat (length lines), clauses).
Proof.
  assert (H1 : 1 ≤ 2) by lia.
  assert (H2 : 0 ≤ 1 ≤ 2 * 2) by lia.
  split; [done|]. exact (dimacs_header_and_lines 2 1 H1 H2).
Defined.

(** The file of [n = 1], [k = 1], read back. *)
Example read_dimacs_1_1 :
  read_dimacs ("p cnf 2 3" +:+ String LF "1 0" +:+ String LF "2 0"
               +:+ String LF "-1 -2 0" +:+ String LF "")
  = Some (2, 3, [[1]; [2]; [-1; -2]]).
Proof. reflexivity. Qed.

(** * Further properties *)

(** ** Combinations *)

Lemma length_combs {A : Type} (l : list A) (r : nat) :
  length (combs l r) = choose (length l) r.
Proof.
  revert r. induction l as [|x l IH]; intros [|r]; simpl; try done.
  by rewrite length_app, length_fmap, !IH.
Qed.

(** The tuples [combs l r] holds are the sublists of [l] of length [r]. *)
Lemma elem_of_combs_sublist {A : Type} (l : list A) (r : nat) (c : list A) :
  c ∈ combs l r ↔ c `sublist_of` l ∧ length c = r.
Proof.
  split.
  - revert r c. induction l as [|x l IH]; intros [|r] c; simpl.
    + intros ->%list_elem_of_singleton. done.
    + by intros ?%elem_of_nil.
    + intros ->%list_elem_of_singleton. split; [apply sublist_nil_l|done].
    + rewrite elem_of_app, list_elem_of_fmap. intros [(c' & -> & Hc')|Hc].
      * destruct (IH _ _ Hc') as [Hsub Hlen].
        split; [by apply sublist_skip|simpl; lia].
      * destruct (IH _ _ Hc) as [Hsub Hlen]. split; [by apply sublist_cons|done].
  - intros [Hsub <-]. induction Hsub as [|x c l Hsub IH|x c l Hsub IH].
    + by left.
    + simpl. rewrite elem_of_app, list_elem_of_fmap. left. by exists c.
    + destruct c as [|y c]; simpl.
      * by left.
      * rewrite elem_of_app. by right.
Qed.

(** Every tuple of [S r] elements has an element that fails [P] exactly
    when at most [r] elements of the list pass [P]. *)
Lemma combs_at_most {A : Type} (P : A → bool) (l : list A) (r : nat) :
  (∀ c, c ∈ combs l (S r) → ∃ x, x ∈ c ∧ P x = false)
  ↔ (length (filter (λ x, P x = true) l) ≤ r)%nat.
Proof.
  split.
  - intros Hall.
    destruct (decide (length (filter (λ x, P x = true) l) ≤ r)%nat) as [|Hgt]; [done|].
    destruct (Hall (take (S r) (filter (λ x, P x = true) l))) as (x & Hx & HPx).
    + apply elem_of_combs_sublist. split.
      * trans (filter (λ x, P x = true) l); [apply sublist_take|apply sublist_filter].
      * rewrite length_take. lia.
    + apply elem_of_take in Hx as (i & Hx & _).
      apply list_elem_of_lookup_2, list_elem_of_filter in Hx as [Hx _]. congruence.
  - intros Hle c [Hsub Hlen]%elem_of_combs_sublist.
    destruct (decide (Forall (λ x, P x = true) c)) as [Hall|Hex].
    + exfalso.
      assert (Hc : filter (λ x, P x = true) c = c).
      { clear -Hall. induction Hall as [|x c Hx _ IH]; [done|].
        by rewrite filter_cons_True, IH. }
      assert (Hlen' : (length (filter (λ x, P x = true) c)
                       ≤ length (filter (λ x, P x = true) l))%nat).
      { apply sublist_length. clear -Hsub.
        induction Hsub as [|x c l Hsub IH|x c l Hsub IH]; [done| |].
        - rewrite !filter_cons. destruct (decide (P x = true)); [by apply sublist_skip|done].
        - rewrite filter_cons. destruct (decide (P x = true)); [by apply sublist_cons|done]. }
      rewrite Hc in Hlen'. lia.
    + apply not_Forall_Exists in Hex; [|apply _].
      apply Exists_exists in Hex as (x & Hx & HPx).
      exists x. split; [done|]. by apply not_true_is_false.
Qed.

(** ** The meaning of the formula *)

Lemma satisfies_iff (a : assignment) (clauses : list clause) :
  satisfies a clauses = true ↔ ∀ c, c ∈ clauses → clause_true a c = true.
Proof.
  unfold satisfies. rewrite forallb_forall. split.
  - intros Hall c Hc. by apply Hall, list_elem_of_In.
  - intros Hall c Hc. by apply Hall, list_elem_of_In.
Qed.

Lemma satisfies_app (a : assignment) (l1 l2 : list clause) :
  satisfies a (l1 ++ l2) = true ↔ satisfies a l1 = true ∧ satisfies a l2 = true.
Proof. unfold satisfies. by rewrite forallb_app, andb_true_iff. Qed.

Lemma clause_true_iff (a : assignment) (c : clause) :
  clause_true a c = true ↔ ∃ l, l ∈ c ∧ lit_true a l = true.
Proof.
  unfold clause_true. rewrite existsb_exists. split.
  - intros (l & Hl & Hlit). exists l. by rewrite list_elem_of_In.
  - intros (l & Hl & Hlit). exists l. by rewrite <- list_elem_of_In.
Qed.

(** A clause of two negated variables holds exactly when not both are true. *)
Lemma clause_true_pair_iff (a : assignment) (v w : Z) :
  0 < v → 0 < w →
  clause_true a [- v; - w] = true ↔ ¬ (a v = true ∧ a w = true).
Proof.
  intros Hv Hw. unfold clause_true. simpl. rewrite !lit_true_neg by done.
  destruct (a v), (a w); simpl; intuition discriminate.
Qed.

Lemma length_filter_negb {A : Type} (P : A → bool) (l : list A) :
  (length (filter (λ x, P x = true) l)
   + length (filter (λ x, negb (P x) = true) l))%nat = length l.
Proof.
  induction l as [|x l IH]; [done|].
  rewrite !filter_cons. destruct (P x) eqn:HP; simpl.
  - destruct (decide (true = true)); [|done].
    destruct (decide (false = true)); [done|]. simpl. lia.
  - destruct (decide (false = true)); [done|].
    destruct (decide (true = true)); [|done]. simpl. lia.
Qed.

(** The at-most family of an army holds exactly when the army has at most
    [r] queens. *)
Lemma card_family_at_most (n : Z) (r : nat) (a : assignment)
    (var : Z → Z → Z → Z) (lit : Z * Z → Z) :
  (∀ i j, lit (i, j) = - var n i j) →
  (∀ i j, on_board n i j → 0 < var n i j) →
  satisfies a ((λ combi : list (Z * Z), lit <$> combi) <$> combs (cells n) (S r)) = true
  ↔ (length (queens n var a) ≤ r)%nat.
Proof.
  intros Hlit Hpos. rewrite satisfies_iff. unfold queens.
  rewrite <- (combs_at_most (λ c, a (var n c.1 c.2))). split.
  - intros Hall combi Hcombi.
    destruct (proj1 (clause_true_iff a (lit <$> combi))) as (l & Hl & Htrue).
    { apply Hall, list_elem_of_fmap. by exists combi. }
    apply list_elem_of_fmap in Hl as ([i j] & -> & Hx).
    exists (i, j). split; [done|]. simpl.
    rewrite Hlit, lit_true_neg in Htrue; [by apply negb_true_iff|].
    apply Hpos, elem_of_cells. by apply (elem_of_combs _ _ _ Hcombi).
  - intros Hall c (combi & -> & Hcombi)%list_elem_of_fmap.
    destruct (Hall combi Hcombi) as ([i j] & Hx & Hfalse). simpl in Hfalse.
    apply clause_true_iff. exists (lit (i, j)).
    split; [apply list_elem_of_fmap; by exists (i, j)|].
    rewrite Hlit, lit_true_neg, Hfalse; [done|].
    apply Hpos, elem_of_cells. by apply (elem_of_combs _ _ _ Hcombi).
Qed.

(** The at-least family of an army holds exactly when all but at most [r]
    cells have a queen of the army. *)
Lemma card_family_at_least (n : Z) (r : nat) (a : assignment)
    (var : Z → Z → Z → Z) (lit : Z * Z → Z) :
  (∀ i j, lit (i, j) = var n i j) →
  (∀ i j, on_board n i j → 0 < var n i j) →
  satisfies a ((λ combi : list (Z * Z), lit <$> combi) <$> combs (cells n) (S r)) = true
  ↔ (length (cells n) ≤ length (queens n var a) + r)%nat.
Proof.
  intros Hlit Hpos. rewrite satisfies_iff. unfold queens.
  pose proof (length_filter_negb (λ c, a (var n c.1 c.2)) (cells n)) as Hsum.
  trans (length (filter (λ c, negb (a (var n c.1 c.2)) = true) (cells n)) ≤ r)%nat;
    [|lia].
  rewrite <- (combs_at_most (λ c, negb (a (var n c.1 c.2)))). split.
  - intros Hall combi Hcombi.
    destruct (proj1 (clause_true_iff a (lit <$> combi))) as (l & Hl & Htrue).
    { apply Hall, list_elem_of_fmap. by exists combi. }
    apply list_elem_of_fmap in Hl as ([i j] & -> & Hx).
    exists (i, j). split; [done|]. simpl.
    rewrite Hlit, lit_true_pos in Htrue; [by rewrite Htrue|].
    apply Hpos, elem_of_cells. by apply (elem_of_combs _ _ _ Hcombi).
  - intros Hall c (combi & -> & Hcombi)%list_elem_of_fmap.
    destruct (Hall combi Hcombi) as ([i j] & Hx & Hfalse). simpl in Hfalse.
    apply negb_false_iff in Hfalse.
    apply clause_true_iff. exists (lit (i, j)).
    split; [apply list_elem_of_fmap; by exists (i, j)|].
    rewrite Hlit, lit_true_pos; [done|].
    apply Hpos, elem_of_cells. by apply (elem_of_combs _ _ _ Hcombi).
Qed.

Lemma wVar_pos (n i j : Z) : on_board n i j → 0 < wVar n i j.
Proof. intros Hij. pose proof (wVar_bounds n i j Hij). lia. Qed.

Lemma bVar_pos (n i j : Z) : on_board n i j → 0 < bVar n i j.
Proof. intros Hij. pose proof (bVar_bounds n i j Hij). unfold on_board in Hij. nia. Qed.

Lemma attack_list_meaning (n : Z) (a : assignment) :
  satisfies a (attack_list n) = true
  ↔ ∀ i j i' j', on_board n i j → on_board n i' j' → (i, j) ≠ (i', j') →
                 same_line i j i' j' →
                 ¬ (a (wVar n i j) = true ∧ a (bVar n i' j') = true).
Proof.
  rewrite satisfies_iff. split.
  - intros Hall i j i' j' Hij Hij' Hne Hline.
    apply clause_true_pair_iff; [by apply wVar_pos|by apply bVar_pos|].
    apply Hall, elem_of_attack_list. by exists i, j, i', j'.
  - intros Hall c (i & j & i' & j' & Hij & Hij' & Hne & Hline & ->)%elem_of_attack_list.
    apply clause_true_pair_iff; [by apply wVar_pos|by apply bVar_pos|].
    by apply Hall.
Qed.

Lemma cell_list_meaning (n : Z) (a : assignment) :
  satisfies a (cell_list n) = true
  ↔ ∀ i j, on_board n i j → ¬ (a (wVar n i j) = true ∧ a (bVar n i j) = true).
Proof.
  rewrite satisfies_iff. split.
  - intros Hall i j Hij.
    apply clause_true_pair_iff; [by apply wVar_pos|by apply bVar_pos|].
    apply Hall, elem_of_cell_list. by exists i, j.
  - intros Hall c (i & j & Hij & ->)%elem_of_cell_list.
    apply clause_true_pair_iff; [by apply wVar_pos|by apply bVar_pos|].
    by apply Hall.
Qed.

(** What it takes to satisfy the four clause families together. *)
Lemma families_meaning (n k : Z) (a : assignment) :
  1 ≤ n → 0 ≤ k ≤ n * n →
  satisfies a (at_most_list n k ++ at_least_list n k ++ attack_list n ++ cell_list n)
  = true
  ↔ length (queens n wVar a) = Z.to_nat k
    ∧ length (queens n bVar a) = Z.to_nat k
    ∧ (∀ i j, on_board n i j →
              ¬ (a (wVar n i j) = true ∧ a (bVar n i j) = true))
    ∧ (∀ i j i' j', on_board n i j → on_board n i' j' → (i, j) ≠ (i', j') →
                    same_line i j i' j' →
                    ¬ (a (wVar n i j) = true ∧ a (bVar n i' j') = true)).
Proof.
  intros Hn Hk.
  rewrite !satisfies_app, attack_list_meaning, cell_list_meaning.
  unfold at_most_list, at_least_list. rewrite !satisfies_app.
  replace (Z.to_nat (k + 1)) with (S (Z.to_nat k)) by lia.
  replace (Z.to_nat (n * n - k + 1)) with (S (Z.to_nat (n * n - k))) by lia.
  rewrite (card_family_at_most n _ a wVar), (card_family_at_most n _ a bVar);
    [|done|apply bVar_pos|done|apply wVar_pos].
  rewrite (card_family_at_least n _ a wVar), (card_family_at_least n _ a bVar);
    [|done|apply bVar_pos|done|apply wVar_pos].
  rewrite length_cells.
  assert (Z.to_nat n * Z.to_nat n = Z.to_nat k + Z.to_nat (n * n - k))%nat by nia.
  split.
  - intros [[Hw Hb] [[Hw' Hb'] [Hatt Hcell]]]. repeat split; try done; lia.
  - intros (Hw & Hb & Hcell & Hatt). repeat split; try done; lia.
Qed.

(** An assignment satisfies the formula of [writeCNF(n, k)] exactly when
    each army has exactly [k] queens, no cell holds a queen of both armies,
    and no army-A queen shares a row, a column or a diagonal with an army-B
    queen on another cell. *)
Theorem formula_meaning (n k : Z) (a : assignment) :
  1 ≤ n → 0 ≤ k ≤ n * n →
  ∃ clauses,
    writeCNF_clauses n k = Ok clauses
    ∧ (satisfies a clauses = true
       ↔ length (queens n wVar a) = Z.to_nat k
         ∧ length (queens n bVar a) = Z.to_nat k
         ∧ (∀ i j, on_board n i j →
                   ¬ (a (wVar n i j) = true ∧ a (bVar n i j) = true))
         ∧ (∀ i j i' j', on_board n i j → on_board n i' j' → (i, j) ≠ (i', j') →
                         same_line i j i' j' →
                         ¬ (a (wVar n i j) = true ∧ a (bVar n i' j') = true))).
Proof.
  intros Hn Hk. eexists. split; [apply writeCNF_clauses_eq; lia|].
  by apply families_meaning.
Qed.

Lemma formula_meaning_witness :
  (1 ≤ 2 ∧ 0 ≤ 1 ≤ 2 * 2)
  ∧ ∃ clauses,
      writeCNF_clauses 2 1 = Ok clauses
      ∧ (satisfies (λ _, false) clauses = true
         ↔ length (queens 2 wVar (λ _, false)) = Z.to_nat 1
           ∧ length (queens 2 bVar (λ _, false)) = Z.to_nat 1
           ∧ (∀ i j, on_board 2 i j →
                     ¬ ((λ _ : Z, false) (wVar 2 i j) = true
                        ∧ (λ _ : Z, false) (bVar 2 i j) = true))
           ∧ (∀ i j i' j', on_board 2 i j → on_board 2 i' j' → (i, j) ≠ (i', j') →
                           same_line i j i' j' →
                           ¬ ((λ _ : Z, false) (wVar 2 i j) = true
                              ∧ (λ _ : Z, false) (bVar 2 i' j') = true))).
Proof.
  assert (H1 : 1 ≤ 2) by lia.
  assert (H2 : 0 ≤ 1 ≤ 2 * 2) by lia.
  split; [done|]. exact (formula_meaning 2 1 (λ _, false) H1 H2).
Defined.

(** The formula has the clause [¬A(c1) ∨ ¬B(c2)] for two cells of the board
    exactly when they are the same cell or share a row, a column or a
    diagonal: no other pair of an army-A and an army-B queen is forbidden
    by a clause of its own. *)
Theorem attack_clause_iff (n k i j i' j' : Z) :
  1 ≤ n → 0 ≤ k ≤ n * n → on_board n i j → on_board n i' j' →
  ∃ clauses,
    writeCNF_clauses n k = Ok clauses
    ∧ ([- wVar n i j; - bVar n i' j'] ∈ clauses
       ↔ (i, j) = (i', j') ∨ same_line i j i' j').
Proof.
  intros Hn Hk Hij Hij'. eexists. split; [apply writeCNF_clauses_eq; lia|].
  pose proof (wVar_bounds n i j Hij) as Hw.
  pose proof (bVar_bounds n i' j' Hij') as Hb.
  rewrite !elem_of_app. unfold at_most_list, at_least_list. rewrite !elem_of_app.
  split.
  - intros [[Hc|Hc]|[[Hc|Hc]|[Hc|Hc]]].
    + apply elem_of_card_family in Hc as [_ Hc].
      destruct (Hc (- bVar n i' j')) as (x & y & Hxy & Heq); [by right; left|].
      pose proof (wVar_bounds n x y Hxy). lia.
    + apply elem_of_card_family in Hc as [_ Hc].
      destruct (Hc (- wVar n i j)) as (x & y & Hxy & Heq); [by left|].
      pose proof (bVar_bounds n x y Hxy). lia.
    + apply elem_of_card_family in Hc as [_ Hc].
      destruct (Hc (- wVar n i j)) as (x & y & Hxy & Heq); [by left|].
      pose proof (wVar_bounds n x y Hxy). lia.
    + apply elem_of_card_family in Hc as [_ Hc].
      destruct (Hc (- wVar n i j)) as (x & y & Hxy & Heq); [by left|].
      pose proof (bVar_bounds n x y Hxy). lia.
    + apply elem_of_attack_list in Hc as (x & y & x' & y' & Hxy & Hxy' & _ & Hline & Heq).
      injection Heq as Hw' Hb'.
      destruct (cell_index_inj n i j x y Hij Hxy) as [-> ->]; [unfold wVar in Hw'; lia|].
      destruct (cell_index_inj n i' j' x' y' Hij' Hxy') as [-> ->];
        [unfold bVar in Hb'; lia|].
      by right.
    + apply elem_of_cell_list in Hc as (x & y & Hxy & Heq).
      injection Heq as Hw' Hb'.
      destruct (cell_index_inj n i j x y Hij Hxy) as [-> ->]; [unfold wVar in Hw'; lia|].
      destruct (cell_index_inj n i' j' x y Hij' Hxy) as [-> ->];
        [unfold bVar in Hb'; lia|].
      by left.
  - intros [[= <- <-]|Hline].
    + right; right; right. apply elem_of_cell_list. by exists i, j.
    + destruct (decide ((i, j) = (i', j'))) as [[= <- <-]|Hne].
      * right; right; right. apply elem_of_cell_list. by exists i, j.
      * right; right; left. apply elem_of_attack_list. by exists i, j, i', j'.
Qed.

Lemma attack_clause_iff_witness :
  (1 ≤ 3 ∧ 0 ≤ 1 ≤ 3 * 3 ∧ on_board 3 0 0 ∧ on_board 3 1 2)
  ∧ ∃ clauses,
      writeCNF_clauses 3 1 = Ok clauses
      ∧ ([- wVar 3 0 0; - bVar 3 1 2] ∈ clauses
         ↔ (0, 0) = (1, 2) ∨ same_line 0 0 1 2).
Proof.
  assert (H1 : 1 ≤ 3) by lia.
  assert (H2 : 0 ≤ 1 ≤ 3 * 3) by lia.
  assert (H3 : on_board 3 0 0) by (unfold on_board; lia).
  assert (H4 : on_board 3 1 2) by (unfold on_board; lia).
  split; [done|]. exact (attack_clause_iff 3 1 0 0 1 2 H1 H2 H3 H4).
Defined.

(** ** A board size that is not positive *)

Lemma cells_nonpositive (n : Z) : n ≤ 0 → cells n = [].
Proof.
  intros Hn. unfold cells, range. by replace (seqZ 0 n) with (@nil Z) by
    (unfold seqZ; by replace (Z.to_nat n) with 0%nat by lia).
Qed.

(** [writeCNF] does not reject a board size [n ≤ 0]: for [-1024 ≤ n ≤ 0]
    and [0 ≤ k ≤ n²] it writes a header that declares [2n²] variables and
    no clause at all. (The bound on [n] keeps the sizes [k + 1] and
    [n² - k + 1] small: [itertools.combinations] allocates an index for
    each unit of the size it is given, also when the pool is shorter, and
    fails on a size that it cannot hold or allocate.) *)
Theorem writeCNF_nonpositive_board (n k : Z) (outputFile : string)
    (fs : gmap string string) :
  - 1024 ≤ n ≤ 0 → 0 ≤ k ≤ n * n →
  writeCNF_clauses n k = Ok []
  ∧ writeCNF n k outputFile fs
    = Ok (<[outputFile := "p cnf " +:+ str (2 * n * n) +:+ " 0" +:+ String LF ""]> fs).
Proof.
  intros [_ Hn] Hk.
  assert (Hcl : writeCNF_clauses n k = Ok []).
  { rewrite writeCNF_clauses_eq by lia.
    unfold at_most_list, at_least_list, attack_list, cell_list.
    rewrite (cells_nonpositive n Hn).
    replace (Z.to_nat (k + 1)) with (S (Z.to_nat k)) by lia.
    replace (Z.to_nat (n * n - k + 1)) with (S (Z.to_nat (n * n - k))) by lia.
    unfold range. unfold seqZ. by replace (Z.to_nat n) with 0%nat by lia. }
  split; [done|]. unfold writeCNF. by rewrite Hcl.
Qed.

Lemma writeCNF_nonpositive_board_witness :
  (- 1024 ≤ -2 ≤ 0 ∧ 0 ≤ 1 ≤ -2 * -2)
  ∧ writeCNF_clauses (-2) 1 = Ok []
  ∧ writeCNF (-2) 1 "tmp.cnf" ∅
    = Ok (<["tmp.cnf" := "p cnf " +:+ str (2 * -2 * -2) +:+ " 0" +:+ String LF ""]> ∅).
Proof.
  assert (H1 : - 1024 ≤ -2 ≤ 0) by lia.
  assert (H2 : 0 ≤ 1 ≤ -2 * -2) by lia.
  split; [done|]. exact (writeCNF_nonpositive_board (-2) 1 "tmp.cnf" ∅ H1 H2).
Defined.

(** ** The decoder, further *)

Lemma decodeSolution_eq (n : Z) (model : list Z) :
  decodeSolution n model = board_text n model.
Proof.
  unfold decodeSolution, board_text.
  fold (decode_positions n (list_to_set (filter (λ v, 0 < v) model))).
  pose proof (decode_positions_spec n (list_to_set (filter (λ v, 0 < v) model)))
    as Hpos.
  destruct (decode_positions n _) as [wPositions bPositions]. simpl in Hpos.
  f_equal.
  rewrite (for_append_fun _ _
    (λ i, join " " ((λ j, cell_symbol n model i j) <$> range n))); [done|].
  intros i board Hi%elem_of_range. f_equal. f_equal.
  rewrite (for_append_fun _ _ (λ j, cell_symbol n model i j)); [done|].
  intros j row Hj%elem_of_range.
  assert (Hij : on_board n i j) by done.
  pose proof (wVar_pos n i j Hij). pose proof (bVar_pos n i j Hij).
  destruct (Hpos i j) as [Hw Hb]. unfold cell_symbol. simpl.
  rewrite (bool_decide_ext ((i, j) ∈ wPositions) (wVar n i j ∈ model)).
  2:{ rewrite Hw, elem_of_trueVars by done. split; [by intros [_ ?]|done]. }
  rewrite (bool_decide_ext ((i, j) ∈ bPositions) (bVar n i j ∈ model)).
  2:{ rewrite Hb, elem_of_trueVars by done. split; [by intros [_ ?]|done]. }
  by repeat case_bool_decide.
Qed.

Lemma board_text_ext (n : Z) (m1 m2 : list Z) :
  (∀ i j, on_board n i j → cell_symbol n m1 i j = cell_symbol n m2 i j) →
  board_text n m1 = board_text n m2.
Proof.
  intros Hcell. unfold board_text. f_equal.
  apply Forall_fmap_ext_1, Forall_forall. intros i Hi%elem_of_range. f_equal.
  apply Forall_fmap_ext_1, Forall_forall. intros j Hj%elem_of_range.
  by apply Hcell.
Qed.

(** The board depends only on which IDs of [1 .. 2n²] the assignment lists:
    the order of the literals, repetitions, negative literals, [0] and IDs
    out of range make no difference. *)
Theorem decodeSolution_in_range_only (n : Z) (m1 m2 : list Z) :
  (∀ v, 1 ≤ v ≤ 2 * n * n → (v ∈ m1 ↔ v ∈ m2)) →
  decodeSolution n m1 = decodeSolution n m2.
Proof.
  intros Hsame. rewrite !decodeSolution_eq. apply board_text_ext.
  intros i j Hij. unfold cell_symbol. simpl.
  pose proof (wVar_bounds n i j Hij). pose proof (bVar_bounds n i j Hij).
  rewrite (bool_decide_ext (wVar n i j ∈ m1) (wVar n i j ∈ m2))
    by (apply Hsame; unfold on_board in Hij; nia).
  rewrite (bool_decide_ext (bVar n i j ∈ m1) (bVar n i j ∈ m2))
    by (apply Hsame; unfold on_board in Hij; nia).
  done.
Qed.

Lemma decodeSolution_in_range_only_witness :
  (∀ v, 1 ≤ v ≤ 2 * 2 * 2 → (v ∈ [1; 8] ↔ v ∈ [8; -3; 0; 1; 1; 99]))
  ∧ decodeSolution 2 [1; 8] = decodeSolution 2 [8; -3; 0; 1; 1; 99].
Proof.
  assert (H : ∀ v, 1 ≤ v ≤ 2 * 2 * 2 → (v ∈ [1; 8] ↔ v ∈ [8; -3; 0; 1; 1; 99])).
  { intros v Hv. rewrite !elem_of_cons, !elem_of_nil. lia. }
  split; [done|]. exact (decodeSolution_in_range_only 2 [1; 8] [8; -3; 0; 1; 1; 99] H).
Defined.

(** ** The printed board, read back *)

Lemma splitlines_last (r : string) :
  r ≠ "" → all_chars (λ c, negb (is_linebreak c)) r = true →
  splitlines_from false r = [r].
Proof.
  induction r as [|c r IH]; intros Hne Hr; [done|].
  simpl in Hr. apply andb_true_iff in Hr as [Hc Hr]. apply negb_true_iff in Hc.
  cbn [splitlines_from andb]. rewrite Hc.
  destruct r as [|c' r]; [done|]. by rewrite IH.
Qed.

Lemma splitlines_join (rows : list string) :
  Forall (λ r, r ≠ "" ∧ all_chars (λ c, negb (is_linebreak c)) r = true) rows →
  splitlines (join (String LF "") rows) = rows.
Proof.
  unfold splitlines. induction 1 as [|r rows [Hne Hr] Hrows IH]; [done|].
  destruct rows as [|r' rows]; [by apply splitlines_last|].
  change (join (String LF "") (r :: r' :: rows))
    with (r +:+ String LF (join (String LF "") (r' :: rows))).
  by rewrite splitlines_line, IH.
Qed.

Lemma split_join (words : list string) :
  Forall (λ w, w ≠ "" ∧ all_chars (λ c, negb (is_space c)) w = true) words →
  split (join " " words) = words.
Proof.
  induction 1 as [|w words [Hne Hw] Hwords IH]; [done|].
  destruct words as [|w' words]; [by apply split_word|].
  change (join " " (w :: w' :: words))
    with (w +:+ String " " (join " " (w' :: words))).
  by rewrite split_word_blank, IH.
Qed.

Lemma join_nonempty (sep : string) (l : list string) :
  l ≠ [] → Forall (λ w, w ≠ "") l → join sep l ≠ "".
Proof.
  intros Hl Hall. destruct Hall as [|w l Hw _]; [done|].
  destruct l as [|w' l]; [done|].
  change (join sep (w :: w' :: l)) with (w +:+ sep +:+ join sep (w' :: l)).
  by destruct w.
Qed.

Lemma all_chars_join (P : ascii → bool) (sep : string) (l : list string) :
  all_chars P sep = true → Forall (λ w, all_chars P w = true) l →
  all_chars P (join sep l) = true.
Proof.
  intros Hsep. induction 1 as [|w l Hw Hl IH]; [done|].
  destruct l as [|w' l]; [done|].
  change (join sep (w :: w' :: l)) with (w +:+ sep +:+ join sep (w' :: l)).
  by rewrite !all_chars_app, Hw, Hsep, IH.
Qed.

(** The three symbols are single characters, none a blank or a line feed. *)
Lemma cell_symbol_cases (n : Z) (model : list Z) (i j : Z) :
  cell_symbol n model i j = "W" ∨ cell_symbol n model i j = "B"
  ∨ cell_symbol n model i j = ".".
Proof. unfold cell_symbol. repeat case_bool_decide; auto. Qed.

Lemma cell_symbol_word (n : Z) (model : list Z) (i j : Z) :
  cell_symbol n model i j ≠ ""
  ∧ all_chars (λ c, negb (is_space c)) (cell_symbol n model i j) = true
  ∧ all_chars (λ c, negb (is_linebreak c)) (cell_symbol n model i j) = true.
Proof. by destruct (cell_symbol_cases n model i j) as [-> | [-> | ->]]. Qed.

Lemma range_nonempty (n : Z) : 1 ≤ n → range n ≠ [].
Proof.
  intros Hn Hnil. assert (H0 : 0 ∈ range n) by (apply elem_of_range; lia).
  rewrite Hnil in H0. by apply elem_of_nil in H0.
Qed.

Lemma board_text_rows (n : Z) (model : list Z) :
  1 ≤ n →
  split <$> splitlines (board_text n model)
  = (λ i, (λ j, cell_symbol n model i j) <$> range n) <$> range n.
Proof.
  intros Hn. unfold board_text.
  rewrite splitlines_join.
  - rewrite <- list_fmap_compose. apply Forall_fmap_ext_1, Forall_forall.
    intros i _. simpl. apply split_join, Forall_fmap, Forall_forall.
    intros j _. simpl. destruct (cell_symbol_word n model i j) as (? & ? & _). done.
  - apply Forall_fmap, Forall_forall. intros i _. simpl. split.
    + apply join_nonempty.
      * intros Hnil%fmap_nil_inv. by apply (range_nonempty n).
      * apply Forall_fmap, Forall_forall. intros j _. simpl.
        by destruct (cell_symbol_word n model i j) as (? & _).
    + apply all_chars_join; [done|].
      apply Forall_fmap, Forall_forall. intros j _. simpl.
      by destruct (cell_symbol_word n model i j) as (_ & _ & ?).
Qed.

(** For [n ≥ 1] the text of the board has [n] lines of [n] symbols: split
    into lines and each line into words, it is, row by row, the symbol of
    each cell; and it is these words and nothing more, the words of a line
    joined by single blanks and the lines by single line feeds, with no
    line feed at the end. *)
Theorem decodeSolution_grid (n : Z) (model : list Z) :
  1 ≤ n →
  split <$> splitlines (decodeSolution n model)
  = (λ i, (λ j, cell_symbol n model i j) <$> range n) <$> range n
  ∧ decodeSolution n model
    = join (String LF "") (join " " <$> (split <$> splitlines (decodeSolution n model))).
Proof.
  intros Hn. rewrite decodeSolution_eq.
  rewrite board_text_rows by done. split; [done|].
  unfold board_text. by rewrite <- list_fmap_compose.
Qed.

Lemma decodeSolution_grid_witness :
  1 ≤ 2
  ∧ split <$> splitlines (decodeSolution 2 [1; 8])
    = (λ i, (λ j, cell_symbol 2 [1; 8] i j) <$> range 2) <$> range 2
  ∧ decodeSolution 2 [1; 8]
    = join (String LF "") (join " " <$> (split <$> splitlines (decodeSolution 2 [1; 8]))).
Proof.
  assert (H1 : 1 ≤ 2) by lia.
  split; [done|]. exact (decodeSolution_grid 2 [1; 8] H1).
Defined.

(** The board of that example, byte by byte. *)
Example board_2_text :
  decodeSolution 2 [1; 8] = "W ." +:+ String LF ". B".
Proof. reflexivity. Qed.

(** For [n ≤ 0] the board is the empty text. *)
Example decodeSolution_empty_board : decodeSolution 0 [1; 2] = "".
Proof. reflexivity. Qed.

(** ** From a satisfying assignment to the board *)

Lemma mjoin_grid {B : Type} (f : Z → Z → B) (l1 l2 : list Z) :
  mjoin ((λ i, (λ j, f i j) <$> l2) <$> l1)
  = (λ c : Z * Z, f c.1 c.2) <$> (i ← l1; j ← l2; [(i, j)]).
Proof.
  induction l1 as [|i l1 IH]; [done|].
  cbn [fmap list_fmap mjoin list_join]. rewrite bind_cons, fmap_app, <- IH. f_equal.
  clear IH. induction l2 as [|j l2 IH]; [done|].
  rewrite bind_cons. cbn [fmap list_fmap app]. by rewrite <- IH.
Qed.

Lemma length_filter_fmap {A B : Type} (g : A → B) (P : B → Prop)
    `{!∀ y, Decision (P y)} (l : list A) :
  length (filter P (g <$> l)) = length (filter (λ x, P (g x)) l).
Proof.
  induction l as [|x l IH]; [done|].
  cbn [fmap list_fmap]. rewrite !filter_cons.
  destruct (decide (P (g x))); simpl; by rewrite IH.
Qed.

Lemma filter_ext_in {A : Type} (P Q : A → Prop)
    `{!∀ x, Decision (P x)} `{!∀ x, Decision (Q x)} (l : list A) :
  (∀ x, x ∈ l → (P x ↔ Q x)) → filter P l = filter Q l.
Proof.
  induction l as [|x l IH]; intros Hext; [done|].
  rewrite !filter_cons. rewrite IH by (intros y Hy; apply Hext; by right).
  destruct (decide (P x)) as [HP|HP], (decide (Q x)) as [HQ|HQ]; try done.
  - destruct HQ. by apply (Hext x ltac:(by left)).
  - destruct HP. by apply (Hext x ltac:(by left)).
Qed.

(** The round trip of the pipeline. When the assignment list names exactly
    the variables that a satisfying assignment of the formula of
    [writeCNF(n, k)] makes true, the board [decodeSolution] prints has
    exactly [k] army-A symbols and exactly [k] army-B symbols, and no
    army-A symbol shares a row, a column or a diagonal with an army-B
    symbol. *)
Theorem decoded_board_counts (n k : Z) (a : assignment) (clauses : list clause)
    (model : list Z) :
  1 ≤ n → 0 ≤ k ≤ n * n →
  writeCNF_clauses n k = Ok clauses →
  satisfies a clauses = true →
  (∀ v, 1 ≤ v ≤ 2 * n * n → (v ∈ model ↔ a v = true)) →
  length (filter (.= "W") (mjoin (split <$> splitlines (decodeSolution n model))))
  = Z.to_nat k
  ∧ length (filter (.= "B") (mjoin (split <$> splitlines (decodeSolution n model))))
    = Z.to_nat k
  ∧ ∀ i j i' j', on_board n i j → on_board n i' j' →
      cell_symbol n model i j = "W" → cell_symbol n model i' j' = "B" →
      (i, j) ≠ (i', j') ∧ ¬ same_line i j i' j'.
Proof.
  intros Hn Hk Hcl Hsat Hmodel.
  rewrite writeCNF_clauses_eq in Hcl by lia. injection Hcl as <-.
  apply families_meaning in Hsat as (Hw & Hb & Hcell & Hatt); [|done|done].
  assert (HW : ∀ i j, on_board n i j →
    (cell_symbol n model i j = "W" ↔ a (wVar n i j) = true)).
  { intros i j Hij. pose proof (wVar_bounds n i j Hij).
    rewrite <- Hmodel by (unfold on_board in Hij; nia).
    unfold cell_symbol. simpl. repeat case_bool_decide; intuition congruence. }
  assert (HB : ∀ i j, on_board n i j →
    (cell_symbol n model i j = "B" ↔ a (bVar n i j) = true)).
  { intros i j Hij. pose proof (wVar_bounds n i j Hij).
    pose proof (bVar_bounds n i j Hij). specialize (Hcell i j Hij).
    rewrite <- (Hmodel (wVar n i j)), <- (Hmodel (bVar n i j)) in Hcell
      by (unfold on_board in Hij; nia).
    rewrite <- Hmodel by (unfold on_board in Hij; nia).
    unfold cell_symbol. simpl. repeat case_bool_decide; intuition congruence. }
  rewrite decodeSolution_eq, board_text_rows by done.
  rewrite mjoin_grid. fold (cells n). rewrite !length_filter_fmap.
  split; [|split].
  - rewrite <- Hw. unfold queens. f_equal. apply filter_ext_in.
    intros [i j] Hij%elem_of_cells. by apply HW.
  - rewrite <- Hb. unfold queens. f_equal. apply filter_ext_in.
    intros [i j] Hij%elem_of_cells. by apply HB.
  - intros i j i' j' Hij Hij' HiW HiB.
    apply HW in HiW; [|done]. apply HB in HiB; [|done].
    assert (Hne : (i, j) ≠ (i', j')).
    { intros [= <- <-]. by apply (Hcell i j Hij). }
    split; [done|]. intros Hline. by apply (Hatt i j i' j' Hij Hij' Hne Hline).
Qed.

Lemma decoded_board_counts_witness :
  let a : assignment := λ v, (v =? 1) || (v =? 15) in
  let clauses := match writeCNF_clauses 3 1 with Ok c => c | Raise _ => [] end in
  (1 ≤ 3 ∧ 0 ≤ 1 ≤ 3 * 3
   ∧ writeCNF_clauses 3 1 = Ok clauses
   ∧ satisfies a clauses = true
   ∧ (∀ v, 1 ≤ v ≤ 2 * 3 * 3 → (v ∈ [1; 15] ↔ a v = true)))
  ∧ (length (filter (.= "W") (mjoin (split <$> splitlines (decodeSolution 3 [1; 15]))))
     = Z.to_nat 1
     ∧ length (filter (.= "B") (mjoin (split <$> splitlines (decodeSolution 3 [1; 15]))))
       = Z.to_nat 1
     ∧ ∀ i j i' j', on_board 3 i j → on_board 3 i' j' →
         cell_symbol 3 [1; 15] i j = "W" → cell_symbol 3 [1; 15] i' j' = "B" →
         (i, j) ≠ (i', j') ∧ ¬ same_line i j i' j').
Proof.
  intros a clauses.
  assert (H1 : 1 ≤ 3) by lia.
  assert (H2 : 0 ≤ 1 ≤ 3 * 3) by lia.
  assert (H3 : writeCNF_clauses 3 1 = Ok clauses) by (vm_compute; reflexivity).
  assert (H4 : satisfies a clauses = true) by (vm_compute; reflexivity).
  assert (H5 : ∀ v, 1 ≤ v ≤ 2 * 3 * 3 → (v ∈ [1; 15] ↔ a v = true)).
  { intros v _. rewrite !elem_of_cons, elem_of_nil. unfold a.
    rewrite orb_true_iff, !Z.eqb_eq. tauto. }
  split; [done|]. exact (decoded_board_counts 3 1 a clauses [1; 15] H1 H2 H3 H4 H5).
Defined.

(** ** The solver adapter, further *)

Lemma for_r_app {A S : Type} (xs ys : list A) (body : A → S → result S) (s : S) :
  for_r (xs ++ ys) body s = s' ← for_r xs body s; for_r ys body s'.
Proof.
  revert s. induction xs as [|x xs IH]; intros s; [done|].
  cbn [app for_r]. destruct (body x s) as [s'|e]; [|done].
  cbn [mbind result_bind]. apply IH.
Qed.

(** A string that starts with [String c p] has [c] as its first character. *)
Lemma startswith_first (l p : string) (c : ascii) :
  startswith l (String c p) = true → ∃ l', l = String c l'.
Proof.
  unfold startswith. destruct l as [|c' l]; simpl; [done|].
  destruct (ascii_dec c c') as [->|]; [|done]. by eexists.
Qed.

Lemma startswith_other (l p q : string) (c d : ascii) :
  c ≠ d → startswith l (String c p) = true → startswith l (String d q) = false.
Proof.
  intros Hne (l' & ->)%startswith_first. unfold startswith. simpl.
  by destruct (ascii_dec d c) as [->|].
Qed.

(** The loop over the words of a value line: the non-zero integers are
    appended, in order. *)
Lemma value_words_str (lits model : list Z) :
  Forall (λ l, l ≠ 0) lits →
  for_r ((str <$> lits) ++ ["0"]) (λ p model,
    val ← int p;
    if bool_decide (val ≠ 0) then mret (append val model) else mret model) model
  = Ok (model ++ lits).
Proof.
  intros Hlits. revert model.
  induction Hlits as [|l lits Hl _ IH]; intros model.
  - by rewrite app_nil_r.
  - rewrite fmap_cons. cbn [app for_r]. rewrite int_str.
    cbn [mbind result_bind mret result_ret].
    rewrite bool_decide_true by done. cbn [mbind result_bind mret result_ret].
    rewrite IH. unfold append. by rewrite <- (assoc_L (++)).
Qed.

Lemma solveCNF_line_value (lits : list Z) (sat : option bool) (model : list Z) :
  Forall (λ l, l ≠ 0) lits →
  solveCNF_line ("v " +:+ clause_line lits) (sat, model) = Ok (sat, model ++ lits).
Proof.
  intros Hlits. unfold solveCNF_line.
  change ("v " +:+ clause_line lits) with (String "v" (String " " (clause_line lits))).
  replace (startswith (String "v" (String " " (clause_line lits))) "s ") with false
    by done.
  replace (startswith (String "v" (String " " (clause_line lits))) "v ") with true
    by (unfold startswith; simpl; by destruct (clause_line lits)).
  change (String "v" (String " " (clause_line lits)))
    with ("v" +:+ String " " (clause_line lits)).
  rewrite split_word_blank, split_clause_line by done. cbn [tail].
  by rewrite value_words_str.
Qed.

Lemma solveCNF_lines_values (groups : list (list Z)) (sat : option bool) (model : list Z) :
  Forall (Forall (λ l, l ≠ 0)) groups →
  for_r ((λ lits, "v " +:+ clause_line lits) <$> groups) solveCNF_line (sat, model)
  = Ok (sat, model ++ mjoin groups).
Proof.
  intros Hgroups. revert model.
  induction Hgroups as [|lits groups Hlits _ IH]; intros model.
  - cbn. by rewrite app_nil_r.
  - rewrite fmap_cons. cbn [for_r]. rewrite solveCNF_line_value by done.
    cbn [mbind result_bind]. rewrite IH.
    cbn [mjoin list_join]. by rewrite <- (assoc_L (++)).
Qed.

(** A status line sets the verdict, whatever it was. *)
Lemma solveCNF_line_status (l : string) (st st' : option bool * list Z) :
  startswith l "s " = true →
  solveCNF_line l st = Ok st' →
  st'.1 = Some (negb (contains "UNSATISFIABLE" l)).
Proof.
  intros Hs. unfold solveCNF_line. destruct st as [sat model]. rewrite Hs.
  rewrite (startswith_other l " " " " "s" "v") by done.
  intros [= <-]. simpl. by destruct (contains "UNSATISFIABLE" l).
Qed.

(** The verdict is that of the last status line: UNSAT when that line
    contains [UNSATISFIABLE], SAT for any other status line. *)
Theorem solveCNF_last_status
    (subprocess_run : list string → gmap string string → result string)
    (cnfFile : string) (printStats : bool) (fs : gmap string string)
    (stdout l : string) (before after : list string)
    (printed : console) (sat : option bool) (model : list Z) :
  subprocess_run ["glucose"; "-model"; cnfFile] fs = Ok stdout →
  splitlines stdout = before ++ l :: after →
  startswith l "s " = true →
  (∀ l', l' ∈ after → startswith l' "s " = false) →
  solveCNF subprocess_run cnfFile printStats fs = Ok (printed, (sat, model)) →
  sat = Some (negb (contains "UNSATISFIABLE" l)).
Proof.
  intros Hrun Hlines Hs Hafter. unfold solveCNF.
  rewrite Hrun. cbn [mbind result_bind]. rewrite Hlines, for_r_app.
  destruct (for_r before solveCNF_line (None, [])) as [st1|e]; [|done].
  cbn [mbind result_bind for_r].
  destruct (solveCNF_line l st1) as [[sat2 model2]|e] eqn:Hl; [|done].
  apply solveCNF_line_status in Hl; [|done]. simpl in Hl. subst sat2.
  cbn [mbind result_bind].
  destruct (solveCNF_lines_no_status after
              (Some (negb (contains "UNSATISFIABLE" l))) model2 Hafter)
    as [[model' ->]| ->]; [|done].
  cbn [mbind result_bind mret result_ret]. by intros [= _ <- _].
Qed.

Lemma solveCNF_last_status_witness :
  ((λ _ _, Ok ("s SATISFIABLE" +:+ String LF "s UNSATISFIABLE"))
     ["glucose"; "-model"; "tmp.cnf"] (∅ : gmap string string)
   = Ok ("s SATISFIABLE" +:+ String LF "s UNSATISFIABLE")
   ∧ splitlines ("s SATISFIABLE" +:+ String LF "s UNSATISFIABLE")
     = ["s SATISFIABLE"] ++ "s UNSATISFIABLE" :: []
   ∧ startswith "s UNSATISFIABLE" "s " = true
   ∧ (∀ l', l' ∈ @nil string → startswith l' "s " = false)
   ∧ solveCNF (λ _ _, Ok ("s SATISFIABLE" +:+ String LF "s UNSATISFIABLE"))
       "tmp.cnf" false ∅
     = Ok ([], (Some false, [])))
  ∧ Some false = Some (negb (contains "UNSATISFIABLE" "s UNSATISFIABLE")).
Proof.
  assert (H1 : (λ _ _, Ok ("s SATISFIABLE" +:+ String LF "s UNSATISFIABLE"))
     ["glucose"; "-model"; "tmp.cnf"] (∅ : gmap string string)
   = Ok ("s SATISFIABLE" +:+ String LF "s UNSATISFIABLE")) by reflexivity.
  assert (H2 : splitlines ("s SATISFIABLE" +:+ String LF "s UNSATISFIABLE")
     = ["s SATISFIABLE"] ++ "s UNSATISFIABLE" :: []) by reflexivity.
  assert (H3 : startswith "s UNSATISFIABLE" "s " = true) by reflexivity.
  assert (H4 : ∀ l', l' ∈ @nil string → startswith l' "s " = false).
  { intros l' Hl'. by apply elem_of_nil in Hl'. }
  assert (H5 : solveCNF (λ _ _, Ok ("s SATISFIABLE" +:+ String LF "s UNSATISFIABLE"))
       "tmp.cnf" false ∅ = Ok ([], (Some false, []))) by reflexivity.
  split; [done|].
  exact (solveCNF_last_status _ "tmp.cnf" false ∅ _ _ _ _ _ _ _ H1 H2 H3 H4 H5).
Defined.

Lemma comment_line_other (l : string) :
  startswith l "c " = true →
  startswith l "s " = false ∧ startswith l "v " = false.
Proof.
  intros Hc. split.
  - by apply (startswith_other l " " " " "c" "s").
  - by apply (startswith_other l " " " " "c" "v").
Qed.

Lemma solveCNF_answer
    (subprocess_run : list string → gmap string string → result string)
    (cnfFile : string) (printStats : bool) (fs : gmap string string)
    (stdout status : string) (comments : list string) (groups : list (list Z)) :
  subprocess_run ["glucose"; "-model"; cnfFile] fs = Ok stdout →
  splitlines stdout
  = comments ++ status :: ((λ lits, "v " +:+ clause_line lits) <$> groups) →
  Forall (λ l, startswith l "c " = true) comments →
  startswith status "s " = true →
  Forall (Forall (λ l, l ≠ 0)) groups →
  solveCNF subprocess_run cnfFile printStats fs
  = Ok (if printStats then String LF "Solver Stats:" :: comments else [],
        (Some (negb (contains "UNSATISFIABLE" status)), mjoin groups)).
Proof.
  intros Hrun Hlines Hcomments Hstatus Hgroups. unfold solveCNF.
  rewrite Hrun. cbn [mbind result_bind]. rewrite Hlines, for_r_app.
  rewrite solveCNF_lines_other.
  2:{ intros l Hl. rewrite Forall_forall in Hcomments.
      by apply comment_line_other, Hcomments. }
  2:{ intros l Hl. rewrite Forall_forall in Hcomments.
      by apply comment_line_other, Hcomments. }
  cbn [mbind result_bind for_r].
  assert (Hline : solveCNF_line status (None, [])
                  = Ok (Some (negb (contains "UNSATISFIABLE" status)), [])).
  { unfold solveCNF_line. rewrite Hstatus.
    rewrite (startswith_other status " " " " "s" "v") by done.
    by destruct (contains "UNSATISFIABLE" status). }
  rewrite Hline. cbn [mbind result_bind].
  rewrite solveCNF_lines_values by done.
  cbn [mbind result_bind mret result_ret app]. do 2 f_equal.
  destruct printStats; [|done].
  rewrite stats_printed, filter_app, filter_cons. f_equal.
  assert (Hc : filter (λ l, startswith l "c " = true) comments = comments).
  { clear -Hcomments. induction Hcomments as [|l ls Hl _ IH]; [done|].
    by rewrite filter_cons_True, IH. }
  rewrite Hc.
  destruct (decide (startswith status "c " = true)) as [Hsc|_].
  { apply comment_line_other in Hsc as [Hsc _]. congruence. }
  rewrite <- (app_nil_r comments) at 2. f_equal.
  clear. induction groups as [|lits groups IH]; [done|].
  rewrite fmap_cons, filter_cons_False; [done|]. by intros [=].
Qed.

(** Reading a well-formed answer. When the output of the solver is comment
    lines, then a status line, then value lines that print lists of
    non-zero literals, each closed by [0], [solveCNF] returns the verdict
    of the status line and the literals of all value lines, in order; with
    [printStats] it prints the heading and the comment lines, otherwise
    nothing. The literals are of 640 digits at most: numerals that Python's
    [int] reads whatever its limit on digits is set to (above the limit,
    4300 digits unless set otherwise, it raises [ValueError]). *)
Theorem solveCNF_reads_answer
    (subprocess_run : list string → gmap string string → result string)
    (cnfFile : string) (printStats : bool) (fs : gmap string string)
    (stdout status : string) (comments : list string) (groups : list (list Z)) :
  subprocess_run ["glucose"; "-model"; cnfFile] fs = Ok stdout →
  splitlines stdout
  = comments ++ status :: ((λ lits, "v " +:+ clause_line lits) <$> groups) →
  Forall (λ l, startswith l "c " = true) comments →
  startswith status "s " = true →
  Forall (Forall (λ l, l ≠ 0)) groups →
  Forall (Forall (λ l, Z.abs l < 10 ^ 640)) groups →
  solveCNF subprocess_run cnfFile printStats fs
  = Ok (if printStats then String LF "Solver Stats:" :: comments else [],
        (Some (negb (contains "UNSATISFIABLE" status)), mjoin groups)).
Proof.
  intros Hrun Hlines Hcomments Hstatus Hgroups _.
  by apply (solveCNF_answer _ _ _ _ stdout).
Qed.

Lemma solveCNF_reads_answer_witness :
  ((λ _ _, Ok ("c restarts 1" +:+ String LF "s SATISFIABLE" +:+ String LF "v 1 -2 0"))
     ["glucose"; "-model"; "tmp.cnf"] (∅ : gmap string string)
   = Ok ("c restarts 1" +:+ String LF "s SATISFIABLE" +:+ String LF "v 1 -2 0")
   ∧ splitlines ("c restarts 1" +:+ String LF "s SATISFIABLE" +:+ String LF "v 1 -2 0")
     = ["c restarts 1"] ++ "s SATISFIABLE"
         :: ((λ lits, "v " +:+ clause_line lits) <$> [[1; -2]])
   ∧ Forall (λ l, startswith l "c " = true) ["c restarts 1"]
   ∧ startswith "s SATISFIABLE" "s " = true
   ∧ Forall (Forall (λ l, l ≠ 0)) [[1; -2]]
   ∧ Forall (Forall (λ l, Z.abs l < 10 ^ 640)) [[1; -2]])
  ∧ solveCNF
      (λ _ _, Ok ("c restarts 1" +:+ String LF "s SATISFIABLE" +:+ String LF "v 1 -2 0"))
      "tmp.cnf" true ∅
    = Ok (if true then String LF "Solver Stats:" :: ["c restarts 1"] else [],
          (Some (negb (contains "UNSATISFIABLE" "s SATISFIABLE")), mjoin [[1; -2]])).
Proof.
  assert (H1 : (λ _ _, Ok ("c restarts 1" +:+ String LF "s SATISFIABLE"
                           +:+ String LF "v 1 -2 0"))
     ["glucose"; "-model"; "tmp.cnf"] (∅ : gmap string string)
   = Ok ("c restarts 1" +:+ String LF "s SATISFIABLE" +:+ String LF "v 1 -2 0"))
    by reflexivity.
  assert (H2 : splitlines ("c restarts 1" +:+ String LF "s SATISFIABLE"
                           +:+ String LF "v 1 -2 0")
     = ["c restarts 1"] ++ "s SATISFIABLE"
         :: ((λ lits, "v " +:+ clause_line lits) <$> [[1; -2]])) by reflexivity.
  assert (H3 : Forall (λ l, startswith l "c " = true) ["c restarts 1"])
    by (repeat constructor).
  assert (H4 : startswith "s SATISFIABLE" "s " = true) by reflexivity.
  assert (H5 : Forall (Forall (λ l, l ≠ 0)) [[1; -2]]) by (repeat constructor; lia).
  assert (H6 : Forall (Forall (λ l, Z.abs l < 10 ^ 640)) [[1; -2]])
    by (repeat constructor; reflexivity).
  split; [done|].
  exact (solveCNF_reads_answer _ "tmp.cnf" true ∅ _ _ _ _ H1 H2 H3 H4 H5 H6).
Defined.

(** [printStats] changes what is printed and nothing else: both calls end
    the same way, with the same verdict and assignment; with [printStats]
    the heading and the lines that start with [c ] are printed, in order,
    without it nothing. *)
Theorem solveCNF_stats_only_print
    (subprocess_run : list string → gmap string string → result string)
    (cnfFile : string) (fs : gmap string string) (stdout : string) :
  subprocess_run ["glucose"; "-model"; cnfFile] fs = Ok stdout →
  (∀ e, solveCNF subprocess_run cnfFile false fs = Raise e
        ↔ solveCNF subprocess_run cnfFile true fs = Raise e)
  ∧ (∀ r, solveCNF subprocess_run cnfFile false fs = Ok ([], r)
          ↔ solveCNF subprocess_run cnfFile true fs
            = Ok (String LF "Solver Stats:"
                    :: filter (λ l, startswith l "c " = true) (splitlines stdout),
                  r)).
Proof.
  intros Hrun. unfold solveCNF. rewrite Hrun. cbn [mbind result_bind].
  destruct (for_r (splitlines stdout) solveCNF_line (None, [])) as [[sat model]|e'].
  - cbn [mbind result_bind mret result_ret]. rewrite stats_printed.
    split; [done|]. intros r. split; by intros [= <-].
  - cbn [mbind result_bind]. split; [done|]. by intros r.
Qed.

Lemma solveCNF_stats_only_print_witness :
  (λ _ _, Ok ("c restarts 1" +:+ String LF "s UNSATISFIABLE"))
    ["glucose"; "-model"; "tmp.cnf"] (∅ : gmap string string)
  = Ok ("c restarts 1" +:+ String LF "s UNSATISFIABLE")
  ∧ ((∀ e, solveCNF (λ _ _, Ok ("c restarts 1" +:+ String LF "s UNSATISFIABLE"))
             "tmp.cnf" false ∅ = Raise e
           ↔ solveCNF (λ _ _, Ok ("c restarts 1" +:+ String LF "s UNSATISFIABLE"))
               "tmp.cnf" true ∅ = Raise e)
     ∧ (∀ r, solveCNF (λ _ _, Ok ("c restarts 1" +:+ String LF "s UNSATISFIABLE"))
               "tmp.cnf" false ∅ = Ok ([], r)
             ↔ solveCNF (λ _ _, Ok ("c restarts 1" +:+ String LF "s UNSATISFIABLE"))
                 "tmp.cnf" true ∅
               = Ok (String LF "Solver Stats:"
                       :: filter (λ l, startswith l "c " = true)
                            (splitlines ("c restarts 1" +:+ String LF "s UNSATISFIABLE")),
                     r))).
Proof.
  assert (H1 : (λ _ _, Ok ("c restarts 1" +:+ String LF "s UNSATISFIABLE"))
    ["glucose"; "-model"; "tmp.cnf"] (∅ : gmap string string)
    = Ok ("c restarts 1" +:+ String LF "s UNSATISFIABLE")) by reflexivity.
  split; [done|]. exact (solveCNF_stats_only_print _ "tmp.cnf" ∅ _ H1).
Defined.

Lemma for_r_invariant {A S : Type} (P : S → Prop) (xs : list A)
    (body : A → S → result S) (s s' : S) :
  P s → (∀ x t t', P t → body x t = Ok t' → P t') →
  for_r xs body s = Ok s' → P s'.
Proof.
  intros Hs Hbody. revert s Hs. induction xs as [|x xs IH]; intros s Hs.
  - by intros [= <-].
  - cbn [for_r]. destruct (body x s) as [t|e] eqn:Hx; [|done].
    cbn [mbind result_bind]. apply IH. by apply (Hbody x s t).
Qed.

(** The assignment [solveCNF] returns never holds a [0]: the terminator of
    a value line is no literal. *)
Theorem solveCNF_model_nonzero
    (subprocess_run : list string → gmap string string → result string)
    (cnfFile : string) (printStats : bool) (fs : gmap string string)
    (printed : console) (sat : option bool) (model : list Z) :
  solveCNF subprocess_run cnfFile printStats fs = Ok (printed, (sat, model)) →
  0 ∉ model.
Proof.
  unfold solveCNF.
  destruct (subprocess_run ["glucose"; "-model"; cnfFile] fs) as [stdout|e]; [|done].
  cbn [mbind result_bind].
  destruct (for_r (splitlines stdout) solveCNF_line (None, [])) as [[sat' model']|e]
    eqn:Hloop; [|done].
  cbn [mbind result_bind mret result_ret]. intros [= _ _ <-].
  change (0 ∉ (sat', model').2).
  apply (for_r_invariant (λ st : option bool * list Z, 0 ∉ st.2)
           (splitlines stdout) solveCNF_line (None, [])); [apply not_elem_of_nil| |done].
  intros l [sat1 m1] [sat2 m2] Hm1. unfold solveCNF_line. simpl in Hm1.
  destruct (startswith l "v "); [|by intros [= _ <-]].
  destruct (for_r (tail (split l)) _ m1) as [m|e] eqn:Hwords; [|done].
  cbn [mbind result_bind mret result_ret]. intros [= _ <-]. simpl.
  revert Hwords.
  apply (for_r_invariant (λ m : list Z, 0 ∉ m)); [done|].
  intros w t t' Ht. destruct (int w) as [val|e]; [|done].
  cbn [mbind result_bind mret result_ret].
  case_bool_decide as Hval; intros [= <-]; [|done].
  unfold append. rewrite elem_of_app, list_elem_of_singleton.
  intros [?|?]; [done|]. by apply Hval.
Qed.

Lemma solveCNF_model_nonzero_witness :
  solveCNF (λ _ _, Ok ("s SATISFIABLE" +:+ String LF "v 3 0 -4 0")) "tmp.cnf" false ∅
  = Ok ([], (Some true, [3; -4]))
  ∧ 0 ∉ [3; -4].
Proof.
  assert (H1 : solveCNF (λ _ _, Ok ("s SATISFIABLE" +:+ String LF "v 3 0 -4 0"))
                 "tmp.cnf" false ∅ = Ok ([], (Some true, [3; -4]))) by reflexivity.
  split; [done|]. exact (solveCNF_model_nonzero _ "tmp.cnf" false ∅ _ _ _ H1).
Defined.

(** The words of a value line make the loop raise exactly when one of them
    is no integer. *)
(** When the solver has run, [solveCNF] raises exactly when some line that
    starts with [v ] has, after its first word, a word that [int] does not
    accept; the exception is then [ValueError]. *)
Theorem solveCNF_raises_iff
    (subprocess_run : list string → gmap string string → result string)
    (cnfFile : string) (printStats : bool) (fs : gmap string string)
    (stdout : string) (e : exn) :
  subprocess_run ["glucose"; "-model"; cnfFile] fs = Ok stdout →
  solveCNF subprocess_run cnfFile printStats fs = Raise e
  ↔ e = ValueError
    ∧ ∃ l, l ∈ splitlines stdout ∧ startswith l "v " = true
           ∧ ∃ w, w ∈ tail (split l) ∧ int w = Raise ValueError.
Proof.
  intros Hrun. rewrite <- (solveCNF_lines_raise (splitlines stdout) (None, []) e).
  unfold solveCNF. rewrite Hrun. cbn [mbind result_bind].
  destruct (for_r (splitlines stdout) solveCNF_line (None, [])) as [[sat model]|e'];
    cbn [mbind result_bind];
    [unfold mret, result_ret; split; by intros [=]|split; by intros [= <-]].
Qed.

Lemma solveCNF_raises_iff_witness :
  (λ _ _, Ok ("s SATISFIABLE" +:+ String LF "v 1 x 0"))
    ["glucose"; "-model"; "tmp.cnf"] (∅ : gmap string string)
  = Ok ("s SATISFIABLE" +:+ String LF "v 1 x 0")
  ∧ (solveCNF (λ _ _, Ok ("s SATISFIABLE" +:+ String LF "v 1 x 0")) "tmp.cnf" false ∅
     = Raise ValueError
     ↔ ValueError = ValueError
       ∧ ∃ l, l ∈ splitlines ("s SATISFIABLE" +:+ String LF "v 1 x 0")
              ∧ startswith l "v " = true
              ∧ ∃ w, w ∈ tail (split l) ∧ int w = Raise ValueError).
Proof.
  assert (H1 : (λ _ _, Ok ("s SATISFIABLE" +:+ String LF "v 1 x 0"))
    ["glucose"; "-model"; "tmp.cnf"] (∅ : gmap string string)
    = Ok ("s SATISFIABLE" +:+ String LF "v 1 x 0")) by reflexivity.
  split; [done|]. exact (solveCNF_raises_iff _ "tmp.cnf" false ∅ _ ValueError H1).
Defined.

(** ** The entry point, further *)

Lemma writeCNF_inv (n k : Z) (outputFile : string) (fs fs' : gmap string string) :
  writeCNF n k outputFile fs = Ok fs' →
  ∃ clauses, writeCNF_clauses n k = Ok clauses
             ∧ fs' = <[outputFile := dimacs (2 * n * n) clauses]> fs.
Proof.
  unfold writeCNF. destruct (writeCNF_clauses n k) as [clauses|e]; [|done].
  cbn [mbind result_bind mret result_ret]. intros [= <-]. by exists clauses.
Qed.

Lemma falsy_iff (x : option Z) : falsy x = true ↔ x = None ∨ x = Some 0.
Proof.
  destruct x as [z|]; simpl; [|by split; [left|]].
  rewrite bool_decide_eq_true. split; [intros ->; by right|].
  by intros [[=]|[= ->]].
Qed.

(** Once [parse_args] has returned its namespace, [main] ends through
    [sys.exit] only with status 1, and exactly when [n] or [k] is missing
    or is [0]. (Before that, [parse_args] itself ends the process: with
    status 2 on a command line it rejects, with status 0 after [--help].) *)
Theorem main_exit_iff
    (subprocess_run : list string → gmap string string → result string)
    (args : Args) (fs : gmap string string) (code : Z) :
  short_instance args fs →
  ended (main subprocess_run args fs) = SysExit code
  ↔ code = 1
    ∧ ∃ n k, read_nk args fs = Ok (n, k)
             ∧ (n = None ∨ n = Some 0 ∨ k = None ∨ k = Some 0).
Proof.
  intros _. unfold main. destruct (read_nk args fs) as [[n k]|e].
  - destruct (falsy n || falsy k) eqn:Hf.
    + simpl. split.
      * intros [= <-]. split; [done|]. exists n, k. split; [done|].
        apply orb_true_iff in Hf as [Hf|Hf]; apply falsy_iff in Hf; tauto.
      * by intros [-> _].
    + split.
      * destruct (writeCNF _ _ _ fs) as [fs'|e]; [|done].
        destruct (args_solve args); [|done].
        destruct (solveCNF _ _ _ fs') as [[printed [[[]|] model]]|e]; done.
      * intros (_ & n' & k' & [= <- <-] & Hz).
        apply orb_false_iff in Hf as [Hn Hk].
        assert (falsy n = true ∨ falsy k = true) as [?|?]; [|congruence..].
        rewrite !falsy_iff. tauto.
  - simpl. split; [done|]. by intros (_ & n & k & [=] & _).
Qed.

Lemma main_exit_iff_witness :
  short_instance
    {| args_n := Some 3; args_k := None; args_cnf := None;
       args_solve := false; args_stats := false; args_instance := None |} ∅
  ∧ (ended (main (λ _ _, Ok "")
       {| args_n := Some 3; args_k := None; args_cnf := None;
          args_solve := false; args_stats := false; args_instance := None |} ∅)
     = SysExit 1
     ↔ 1 = 1
       ∧ ∃ n k,
           read_nk
             {| args_n := Some 3; args_k := None; args_cnf := None;
                args_solve := false; args_stats := false; args_instance := None |} ∅
           = Ok (n, k)
           ∧ (n = None ∨ n = Some 0 ∨ k = None ∨ k = Some 0)).
Proof.
  assert (H1 : short_instance
    {| args_n := Some 3; args_k := None; args_cnf := None;
       args_solve := false; args_stats := false; args_instance := None |} ∅).
  { intros path text Hpath. discriminate Hpath. }
  split; [done|]. exact (main_exit_iff (λ _ _, Ok "") _ ∅ 1 H1).
Defined.

(** Without [--k] the process ends with status 1. *)
Example main_exit_missing_k :
  main (λ _ _, Ok "")
    {| args_n := Some 3; args_k := None; args_cnf := None;
       args_solve := false; args_stats := false; args_instance := None |} ∅
  = {| printed := ["Please specify n and k."]; ended := SysExit 1; files := ∅ |}.
Proof. reflexivity. Qed.

(** Whatever the arguments, the files and the solver, [main] leaves every
    file but the CNF file as it was. *)
Theorem main_touches_only_cnf
    (subprocess_run : list string → gmap string string → result string)
    (args : Args) (fs : gmap string string) (path : string) :
  path ≠ default "tmp.cnf" (nonempty (args_cnf args)) →
  files (main subprocess_run args fs) !! path = fs !! path.
Proof.
  intros Hpath. unfold main. destruct (read_nk args fs) as [[n k]|e]; [|done].
  destruct (falsy n || falsy k); [done|].
  destruct (writeCNF _ _ _ fs) as [fs'|e] eqn:Hwrite; [|done].
  apply writeCNF_inv in Hwrite as (clauses & _ & ->).
  assert (Hfs : <[default "tmp.cnf" (nonempty (args_cnf args))
                  := dimacs (2 * default 0 n * default 0 n) clauses]> fs !! path
                = fs !! path) by (by apply lookup_insert_ne).
  destruct (args_solve args); [|done].
  destruct (solveCNF _ _ _ _) as [[printed [[[]|] model]]|e]; done.
Qed.

Lemma main_touches_only_cnf_witness :
  "queens.txt" ≠ default "tmp.cnf" (nonempty (args_cnf
     {| args_n := Some 1; args_k := Some 1; args_cnf := None;
        args_solve := true; args_stats := false; args_instance := None |}))
  ∧ files (main (λ _ _, Ok "s UNSATISFIABLE")
      {| args_n := Some 1; args_k := Some 1; args_cnf := None;
         args_solve := true; args_stats := false; args_instance := None |}
      {[ "queens.txt" := "1" ]}) !! "queens.txt"
    = ({[ "queens.txt" := "1" ]} : gmap string string) !! "queens.txt".
Proof.
  assert (H1 : "queens.txt" ≠ default "tmp.cnf" (nonempty (args_cnf
     {| args_n := Some 1; args_k := Some 1; args_cnf := None;
        args_solve := true; args_stats := false; args_instance := None |})))
    by (intros [=]).
  split; [done|].
  exact (main_touches_only_cnf (λ _ _, Ok "s UNSATISFIABLE") _ _ "queens.txt" H1).
Defined.

(** With [n ≥ 1], [k] not [0] and [-1 ≤ k ≤ n² + 1], [main] writes the CNF
    file, to [--cnf] or else to [tmp.cnf], before anything else: the file
    is there whether or not the solver is asked for and however the solver
    ends. Without [--solve] nothing is printed; with it, an exception of
    [subprocess.run] leaves [main] uncaught. *)
Theorem main_writes_cnf
    (subprocess_run : list string → gmap string string → result string)
    (args : Args) (fs : gmap string string) (n k : Z) :
  short_instance args fs →
  read_nk args fs = Ok (Some n, Some k) →
  1 ≤ n → k ≠ 0 → -1 ≤ k ≤ n * n + 1 →
  ∃ clauses,
    writeCNF_clauses n k = Ok clauses
    ∧ files (main subprocess_run args fs)
      = <[default "tmp.cnf" (nonempty (args_cnf args)) := dimacs (2 * n * n) clauses]> fs
    ∧ (args_solve args = false →
       printed (main subprocess_run args fs) = []
       ∧ ended (main subprocess_run args fs) = Returned)
    ∧ (∀ e, args_solve args = true →
            subprocess_run
              ["glucose"; "-model"; default "tmp.cnf" (nonempty (args_cnf args))]
              (<[default "tmp.cnf" (nonempty (args_cnf args))
                 := dimacs (2 * n * n) clauses]> fs) = Raise e →
            printed (main subprocess_run args fs) = []
            ∧ ended (main subprocess_run args fs) = Uncaught e).
Proof.
  intros _ Hread Hn Hk Hrange. eexists. split; [apply writeCNF_clauses_eq; lia|].
  unfold main. rewrite Hread. simpl.
  rewrite !bool_decide_false by lia. simpl.
  unfold writeCNF. rewrite writeCNF_clauses_eq by lia.
  cbn [mbind result_bind mret result_ret].
  split; [|split].
  - destruct (args_solve args); [|done].
    destruct (solveCNF _ _ _ _) as [[printed [[[]|] model]]|e]; done.
  - by intros ->.
  - intros e -> Hrun. unfold solveCNF. by rewrite Hrun.
Qed.

Lemma main_writes_cnf_witness :
  (short_instance
     {| args_n := Some 2; args_k := Some 1; args_cnf := Some "q.cnf";
        args_solve := true; args_stats := false; args_instance := None |} ∅
   ∧ read_nk {| args_n := Some 2; args_k := Some 1; args_cnf := Some "q.cnf";
              args_solve := true; args_stats := false; args_instance := None |} ∅
   = Ok (Some 2, Some 1)
   ∧ 1 ≤ 2 ∧ 1 ≠ 0 ∧ -1 ≤ 1 ≤ 2 * 2 + 1)
  ∧ ∃ clauses,
      writeCNF_clauses 2 1 = Ok clauses
      ∧ files (main (λ _ _, Raise FileNotFoundError)
          {| args_n := Some 2; args_k := Some 1; args_cnf := Some "q.cnf";
             args_solve := true; args_stats := false; args_instance := None |} ∅)
        = <[default "tmp.cnf" (nonempty (Some "q.cnf")) := dimacs (2 * 2 * 2) clauses]> ∅
      ∧ (true = false →
         printed (main (λ _ _, Raise FileNotFoundError)
          {| args_n := Some 2; args_k := Some 1; args_cnf := Some "q.cnf";
             args_solve := true; args_stats := false; args_instance := None |} ∅) = []
         ∧ ended (main (λ _ _, Raise FileNotFoundError)
          {| args_n := Some 2; args_k := Some 1; args_cnf := Some "q.cnf";
             args_solve := true; args_stats := false; args_instance := None |} ∅)
           = Returned)
      ∧ (∀ e, true = true →
              (λ _ _, Raise FileNotFoundError)
                ["glucose"; "-model"; default "tmp.cnf" (nonempty (Some "q.cnf"))]
                (<[default "tmp.cnf" (nonempty (Some "q.cnf"))
                   := dimacs (2 * 2 * 2) clauses]> (∅ : gmap string string))
              = (Raise e : result string) →
              printed (main (λ _ _, Raise FileNotFoundError)
                {| args_n := Some 2; args_k := Some 1; args_cnf := Some "q.cnf";
                   args_solve := true; args_stats := false; args_instance := None |} ∅)
              = []
              ∧ ended (main (λ _ _, Raise FileNotFoundError)
                {| args_n := Some 2; args_k := Some 1; args_cnf := Some "q.cnf";
                   args_solve := true; args_stats := false; args_instance := None |} ∅)
                = Uncaught e).
Proof.
  assert (H0 : short_instance
     {| args_n := Some 2; args_k := Some 1; args_cnf := Some "q.cnf";
        args_solve := true; args_stats := false; args_instance := None |} ∅).
  { intros path text Hpath. discriminate Hpath. }
  assert (H1 : read_nk {| args_n := Some 2; args_k := Some 1; args_cnf := Some "q.cnf";
              args_solve := true; args_stats := false; args_instance := None |} ∅
               = Ok (Some 2, Some 1)) by reflexivity.
  assert (H2 : 1 ≤ 2) by lia.
  assert (H3 : 1 ≠ 0) by lia.
  assert (H4 : -1 ≤ 1 ≤ 2 * 2 + 1) by lia.
  split; [done|].
  exact (main_writes_cnf (λ _ _, Raise FileNotFoundError) _ ∅ 2 1 H0 H1 H2 H3 H4).
Defined.

(** With [n] and [k] not [0] and [k < -1] or [k > n² + 1], [main] ends
    with an uncaught exception of the encoder: nothing is printed and no
    file is written. For [k < -1] with a size [k + 1] that fits C's
    [ssize_t] on every platform, the exception is the [ValueError] of
    [itertools.combinations]. *)
Theorem main_value_error
    (subprocess_run : list string → gmap string string → result string)
    (args : Args) (fs : gmap string string) (n k : Z) :
  read_nk args fs = Ok (Some n, Some k) →
  n ≠ 0 → k ≠ 0 → k < -1 ∨ n * n + 1 < k →
  (∃ e, main subprocess_run args fs
        = {| printed := []; ended := Uncaught e; files := fs |})
  ∧ (- 2 ^ 31 ≤ k + 1 < 0 →
     main subprocess_run args fs
     = {| printed := []; ended := Uncaught ValueError; files := fs |}).
Proof.
  intros Hread Hn Hk Hrange.
  assert (Hmain : main subprocess_run args fs
                  = {| printed := []; ended := Uncaught ValueError; files := fs |}).
  { unfold main. rewrite Hread. simpl.
    rewrite !bool_decide_false by done. simpl.
    unfold writeCNF. by rewrite writeCNF_clauses_raise. }
  split; [by exists ValueError|done].
Qed.

Lemma main_value_error_witness :
  (read_nk {| args_n := Some 2; args_k := Some (-3); args_cnf := None;
              args_solve := true; args_stats := false; args_instance := None |} ∅
   = Ok (Some 2, Some (-3))
   ∧ 2 ≠ 0 ∧ -3 ≠ 0 ∧ (-3 < -1 ∨ 2 * 2 + 1 < -3))
  ∧ (∃ e, main (λ _ _, Ok "s SATISFIABLE")
            {| args_n := Some 2; args_k := Some (-3); args_cnf := None;
               args_solve := true; args_stats := false; args_instance := None |} ∅
          = {| printed := []; ended := Uncaught e; files := ∅ |})
  ∧ (- 2 ^ 31 ≤ -3 + 1 < 0 →
     main (λ _ _, Ok "s SATISFIABLE")
       {| args_n := Some 2; args_k := Some (-3); args_cnf := None;
          args_solve := true; args_stats := false; args_instance := None |} ∅
     = {| printed := []; ended := Uncaught ValueError; files := ∅ |}).
Proof.
  assert (H1 : read_nk {| args_n := Some 2; args_k := Some (-3); args_cnf := None;
              args_solve := true; args_stats := false; args_instance := None |} ∅
               = Ok (Some 2, Some (-3))) by reflexivity.
  assert (H2 : 2 ≠ 0) by lia.
  assert (H3 : -3 ≠ 0) by lia.
  assert (H4 : -3 < -1 ∨ 2 * 2 + 1 < -3) by lia.
  split; [done|].
  exact (main_value_error (λ _ _, Ok "s SATISFIABLE") _ ∅ 2 (-3) H1 H2 H3 H4).
Defined.

(** Nine queens an army on a board of four cells: the second call of
    [itertools.combinations] has the size [-4]. *)
Example main_k_above_range :
  main (λ _ _, Ok "s SATISFIABLE")
    {| args_n := Some 2; args_k := Some 9; args_cnf := None;
       args_solve := true; args_stats := false; args_instance := None |} ∅
  = {| printed := []; ended := Uncaught ValueError; files := ∅ |}.
Proof. reflexivity. Qed.

(** ** The instance file *)

Lemma lstrip_first (sp : ascii → bool) (c : ascii) (s : string) :
  sp c = false → lstrip sp (String c s) = String c s.
Proof. intros Hc. simpl. by rewrite Hc. Qed.

Lemma rstrip_snoc (sp : ascii → bool) (s : string) (c : ascii) :
  sp c = true → rstrip sp (s +:+ String c "") = rstrip sp s.
Proof.
  intros Hc. induction s as [|a s IH].
  - simpl. by rewrite Hc.
  - rewrite string_app_cons. cbn [rstrip]. by rewrite IH.
Qed.

Lemma rstrip_app (sp : ascii → bool) (s1 s2 : string) :
  rstrip sp s2 ≠ "" → rstrip sp (s1 +:+ s2) = s1 +:+ rstrip sp s2.
Proof.
  intros Hne. induction s1 as [|a s1 IH]; [done|].
  rewrite !string_app_cons. cbn [rstrip]. rewrite IH.
  destruct (s1 +:+ rstrip sp s2) as [|b r] eqn:Hr; [|done].
  destruct s1; [|done]. by rewrite string_app_nil_l in Hr.
Qed.

Lemma str_first (z : Z) : ∃ c s, str z = String c s ∧ is_space c = false.
Proof.
  pose proof (str_word z) as [Hne Hw].
  destruct (str z) as [|c s]; [done|]. exists c, s. split; [done|].
  simpl in Hw. apply andb_true_iff in Hw as [Hc _]. by apply negb_true_iff.
Qed.

(** The lines of an instance file that holds [n] and [k] in decimal, a
    line each. *)
Lemma instance_lines (n k : Z) :
  splitlines (strip (str n +:+ String LF "" +:+ str k +:+ String LF ""))
  = [str n; str k].
Proof.
  unfold strip.
  destruct (str_first n) as (c & s & Hn & Hc).
  assert (Hl : lstrip is_space (str n +:+ String LF "" +:+ str k +:+ String LF "")
               = str n +:+ String LF "" +:+ str k +:+ String LF "").
  { rewrite Hn, string_app_cons. by apply lstrip_first. }
  rewrite Hl.
  replace (str n +:+ String LF "" +:+ str k +:+ String LF "")
    with ((str n +:+ String LF "" +:+ str k) +:+ String LF "")
    by (by rewrite !string_app_assoc).
  rewrite rstrip_snoc by done.
  assert (Hk : rstrip is_space (str k) = str k).
  { apply rstrip_id. by destruct (str_word k). }
  replace (str n +:+ String LF "" +:+ str k)
    with ((str n +:+ String LF "") +:+ str k) by (by rewrite !string_app_assoc).
  rewrite rstrip_app by (rewrite Hk; apply str_nonempty).
  rewrite Hk, string_app_assoc. unfold splitlines.
  change (String LF "" +:+ str k) with (String LF (str k)).
  rewrite splitlines_line by apply str_no_linebreak.
  by rewrite splitlines_last by (apply str_nonempty || apply str_no_linebreak).
Qed.

(** An instance file that holds [n] and [k] in decimal, a line each, is
    read as [(n, k)]; [--n] and [--k] are not looked at. The numbers are
    of 640 digits at most: numerals that Python's [int] reads whatever its
    limit on digits is set to. *)
Theorem read_nk_instance_file (args : Args) (fs : gmap string string)
    (path : string) (n k : Z) :
  args_instance args = Some path → path ≠ "" →
  Z.abs n < 10 ^ 640 → Z.abs k < 10 ^ 640 →
  fs !! path = Some (str n +:+ String LF "" +:+ str k +:+ String LF "") →
  read_nk args fs = Ok (Some n, Some k).
Proof.
  intros Hinst Hpath _ _ Hfile. unfold read_nk. rewrite Hinst. simpl.
  rewrite string_eqb_nonempty by done. rewrite Hfile, instance_lines.
  cbn [index lookup list_lookup mbind result_bind]. rewrite int_str.
  cbn [mbind result_bind]. rewrite int_str. done.
Qed.

Lemma read_nk_instance_file_witness :
  (args_instance {| args_n := Some 7; args_k := None; args_cnf := None;
                    args_solve := false; args_stats := false;
                    args_instance := Some "queens.txt" |} = Some "queens.txt"
   ∧ "queens.txt" ≠ ""
   ∧ Z.abs 5 < 10 ^ 640 ∧ Z.abs 4 < 10 ^ 640
   ∧ ({[ "queens.txt" := str 5 +:+ String LF "" +:+ str 4 +:+ String LF "" ]}
        : gmap string string) !! "queens.txt"
     = Some (str 5 +:+ String LF "" +:+ str 4 +:+ String LF ""))
  ∧ read_nk {| args_n := Some 7; args_k := None; args_cnf := None;
               args_solve := false; args_stats := false;
               args_instance := Some "queens.txt" |}
      {[ "queens.txt" := str 5 +:+ String LF "" +:+ str 4 +:+ String LF "" ]}
    = Ok (Some 5, Some 4).
Proof.
  assert (H1 : args_instance {| args_n := Some 7; args_k := None; args_cnf := None;
                    args_solve := false; args_stats := false;
                    args_instance := Some "queens.txt" |} = Some "queens.txt")
    by reflexivity.
  assert (H2 : "queens.txt" ≠ "") by (intros [=]).
  assert (H3 : Z.abs 5 < 10 ^ 640) by reflexivity.
  assert (H4 : Z.abs 4 < 10 ^ 640) by reflexivity.
  assert (H5 : ({[ "queens.txt" := str 5 +:+ String LF "" +:+ str 4 +:+ String LF "" ]}
        : gmap string string) !! "queens.txt"
     = Some (str 5 +:+ String LF "" +:+ str 4 +:+ String LF "")) by reflexivity.
  split; [done|]. exact (read_nk_instance_file _ _ "queens.txt" 5 4 H1 H2 H3 H4 H5).
Defined.

(** A problem with the instance file ends [main] with an uncaught
    exception before anything is encoded: [FileNotFoundError] when the file
    does not exist, [IndexError] or [ValueError] when it has fewer than two
    lines; nothing is printed and no file is written. *)
Theorem main_instance_problem
    (subprocess_run : list string → gmap string string → result string)
    (args : Args) (fs : gmap string string) (path : string) :
  args_instance args = Some path → path ≠ "" →
  (fs !! path = None →
   main subprocess_run args fs
   = {| printed := []; ended := Uncaught FileNotFoundError; files := fs |})
  ∧ (∀ text, fs !! path = Some text →
       (length (splitlines (strip text)) < 2)%nat →
       main subprocess_run args fs
       = {| printed := []; ended := Uncaught IndexError; files := fs |}
       ∨ main subprocess_run args fs
         = {| printed := []; ended := Uncaught ValueError; files := fs |}).
Proof.
  intros Hinst Hpath. unfold main, read_nk. rewrite Hinst. simpl.
  rewrite string_eqb_nonempty by done. split.
  - by intros ->.
  - intros text -> Hlen.
    destruct (splitlines (strip text)) as [|l0 [|l1 lines]]; simpl in Hlen; [| |lia].
    + by left.
    + cbn [index lookup list_lookup mbind result_bind].
      destruct (int_result l0) as [[z ->]| ->]; [by left|by right].
Qed.

Lemma main_instance_problem_witness :
  (args_instance {| args_n := Some 3; args_k := Some 1; args_cnf := None;
                    args_solve := false; args_stats := false;
                    args_instance := Some "queens.txt" |} = Some "queens.txt"
   ∧ "queens.txt" ≠ "")
  ∧ ((∅ : gmap string string) !! "queens.txt" = None →
     main (λ _ _, Ok "")
       {| args_n := Some 3; args_k := Some 1; args_cnf := None;
          args_solve := false; args_stats := false;
          args_instance := Some "queens.txt" |} ∅
     = {| printed := []; ended := Uncaught FileNotFoundError; files := ∅ |})
  ∧ (∀ text, (∅ : gmap string string) !! "queens.txt" = Some text →
       (length (splitlines (strip text)) < 2)%nat →
       main (λ _ _, Ok "")
         {| args_n := Some 3; args_k := Some 1; args_cnf := None;
            args_solve := false; args_stats := false;
            args_instance := Some "queens.txt" |} ∅
       = {| printed := []; ended := Uncaught IndexError; files := ∅ |}
       ∨ main (λ _ _, Ok "")
           {| args_n := Some 3; args_k := Some 1; args_cnf := None;
              args_solve := false; args_stats := false;
              args_instance := Some "queens.txt" |} ∅
         = {| printed := []; ended := Uncaught ValueError; files := ∅ |}).
Proof.
  assert (H1 : args_instance {| args_n := Some 3; args_k := Some 1; args_cnf := None;
                    args_solve := false; args_stats := false;
                    args_instance := Some "queens.txt" |} = Some "queens.txt")
    by reflexivity.
  assert (H2 : "queens.txt" ≠ "") by (intros [=]).
  split; [done|]. exact (main_instance_problem (λ _ _, Ok "") _ ∅ "queens.txt" H1 H2).
Defined.

(** An instance file with a single line: the second line is missing. *)
Example main_instance_one_line :
  ended (main (λ _ _, Ok "")
    {| args_n := None; args_k := None; args_cnf := None;
       args_solve := false; args_stats := false; args_instance := Some "queens.txt" |}
    {[ "queens.txt" := "5" ]})
  = Uncaught IndexError.
Proof. reflexivity. Qed.

(** ** The whole pipeline *)

(** With [--solve], a board size [n ≥ 1], parameters the encoder accepts
    and a well-formed answer of the solver (comment lines, a status line,
    value lines of literals of 640 digits at most), [main] prints the
    statistics if asked for, then [UNSAT] when the status line contains
    [UNSATISFIABLE], and otherwise [SAT] and the board decoded from the
    literals of the value lines; then it returns. *)
Theorem main_prints_answer
    (subprocess_run : list string → gmap string string → result string)
    (args : Args) (fs : gmap string string) (n k : Z) (clauses : list clause)
    (stdout status : string) (comments : list string) (groups : list (list Z)) :
  short_instance args fs →
  read_nk args fs = Ok (Some n, Some k) →
  1 ≤ n → k ≠ 0 →
  writeCNF_clauses n k = Ok clauses →
  args_solve args = true →
  subprocess_run ["glucose"; "-model"; default "tmp.cnf" (nonempty (args_cnf args))]
    (<[default "tmp.cnf" (nonempty (args_cnf args)) := dimacs (2 * n * n) clauses]> fs)
  = Ok stdout →
  splitlines stdout
  = comments ++ status :: ((λ lits, "v " +:+ clause_line lits) <$> groups) →
  Forall (λ l, startswith l "c " = true) comments →
  startswith status "s " = true →
  Forall (Forall (λ l, l ≠ 0)) groups →
  Forall (Forall (λ l, Z.abs l < 10 ^ 640)) groups →
  printed (main subprocess_run args fs)
  = (if args_stats args then String LF "Solver Stats:" :: comments else [])
    ++ (if contains "UNSATISFIABLE" status then ["UNSAT"]
        else ["SAT"; decodeSolution n (mjoin groups)])
  ∧ ended (main subprocess_run args fs) = Returned.
Proof.
  intros _ Hread Hn Hk Hcl Hsolve Hrun Hlines Hcomments Hstatus Hgroups _.
  unfold main. rewrite Hread. simpl. rewrite !bool_decide_false by lia. simpl.
  unfold writeCNF. rewrite Hcl. cbn [mbind result_bind mret result_ret].
  rewrite Hsolve.
  rewrite (solveCNF_answer _ _ _ _ stdout status comments groups) by done.
  destruct (contains "UNSATISFIABLE" status); simpl; unfold append; [done|].
  by rewrite <- (assoc_L (++)).
Qed.

Lemma main_prints_answer_witness :
  let args := {| args_n := Some 3; args_k := Some 1; args_cnf := None;
                 args_solve := true; args_stats := false; args_instance := None |} in
  let clauses := match writeCNF_clauses 3 1 with Ok c => c | Raise _ => [] end in
  let run : list string → gmap string string → result string :=
    λ _ _, Ok ("s SATISFIABLE" +:+ String LF "v 1 15 0") in
  (short_instance args ∅
   ∧ read_nk args ∅ = Ok (Some 3, Some 1)
   ∧ 1 ≤ 3 ∧ 1 ≠ 0
   ∧ writeCNF_clauses 3 1 = Ok clauses
   ∧ args_solve args = true
   ∧ run ["glucose"; "-model"; default "tmp.cnf" (nonempty (args_cnf args))]
       (<[default "tmp.cnf" (nonempty (args_cnf args)) := dimacs (2 * 3 * 3) clauses]> ∅)
     = Ok ("s SATISFIABLE" +:+ String LF "v 1 15 0")
   ∧ splitlines ("s SATISFIABLE" +:+ String LF "v 1 15 0")
     = [] ++ "s SATISFIABLE" :: ((λ lits, "v " +:+ clause_line lits) <$> [[1; 15]])
   ∧ Forall (λ l, startswith l "c " = true) []
   ∧ startswith "s SATISFIABLE" "s " = true
   ∧ Forall (Forall (λ l, l ≠ 0)) [[1; 15]]
   ∧ Forall (Forall (λ l, Z.abs l < 10 ^ 640)) [[1; 15]])
  ∧ printed (main run args ∅)
    = (if args_stats args then String LF "Solver Stats:" :: [] else [])
      ++ (if contains "UNSATISFIABLE" "s SATISFIABLE" then ["UNSAT"]
          else ["SAT"; decodeSolution 3 (mjoin [[1; 15]])])
    ∧ ended (main run args ∅) = Returned.
Proof.
  intros args clauses run.
  assert (H0 : short_instance args ∅).
  { intros path text Hpath. discriminate Hpath. }
  assert (H1 : read_nk args ∅ = Ok (Some 3, Some 1)) by reflexivity.
  assert (H2 : 1 ≤ 3) by lia.
  assert (H3 : 1 ≠ 0) by lia.
  assert (H4 : writeCNF_clauses 3 1 = Ok clauses) by (vm_compute; reflexivity).
  assert (H5 : args_solve args = true) by reflexivity.
  assert (H6 : run ["glucose"; "-model"; default "tmp.cnf" (nonempty (args_cnf args))]
       (<[default "tmp.cnf" (nonempty (args_cnf args)) := dimacs (2 * 3 * 3) clauses]> ∅)
     = Ok ("s SATISFIABLE" +:+ String LF "v 1 15 0")) by reflexivity.
  assert (H7 : splitlines ("s SATISFIABLE" +:+ String LF "v 1 15 0")
     = [] ++ "s SATISFIABLE" :: ((λ lits, "v " +:+ clause_line lits) <$> [[1; 15]]))
    by reflexivity.
  assert (H8 : Forall (λ l, startswith l "c " = true) []) by constructor.
  assert (H9 : startswith "s SATISFIABLE" "s " = true) by reflexivity.
  assert (H10 : Forall (Forall (λ l, l ≠ 0)) [[1; 15]]) by (repeat constructor; lia).
  assert (H11 : Forall (Forall (λ l, Z.abs l < 10 ^ 640)) [[1; 15]])
    by (repeat constructor; reflexivity).
  split; [done|].
  exact (main_prints_answer run args ∅ 3 1 clauses _ _ _ _
           H0 H1 H2 H3 H4 H5 H6 H7 H8 H9 H10 H11).
Defined.

(** The board the pipeline prints for that answer. *)
Example main_board_3_1 :
  decodeSolution 3 [1; 15]
  = "W . ." +:+ String LF ". . B" +:+ String LF ". . .".
Proof. reflexivity. Qed.

(** ** The number of clauses *)

Lemma length_filter_interval (a len lo hi : Z) :
  0 ≤ len →
  length (filter (λ d, lo ≤ d < hi) (seqZ a len))
  = Z.to_nat (Z.min hi (a + len) - Z.max lo a).
Proof.
  intros Hlen. rewrite <- (Z2Nat.id len Hlen). generalize (Z.to_nat len) as m.
  clear. intros m. revert a. induction m as [|m IH]; intros a.
  - rewrite seqZ_nil by lia. simpl. lia.
  - rewrite seqZ_cons by lia.
    replace (Z.pred (Z.of_nat (S m))) with (Z.of_nat m) by lia.
    rewrite filter_cons. destruct (decide (lo ≤ a < hi)); simpl; rewrite IH; lia.
Qed.

Lemma length_filter_split {A : Type} (P R : A → Prop)
    `{!∀ x, Decision (P x)} `{!∀ x, Decision (R x)} (l : list A) :
  length (filter P l)
  = (length (filter (λ x, R x ∧ P x) l) + length (filter (λ x, ¬ R x ∧ P x) l))%nat.
Proof.
  induction l as [|x l IH]; [done|].
  rewrite !filter_cons.
  destruct (decide (P x)), (decide (R x));
    repeat (destruct (decide _) as [?|?]; try tauto); simpl; lia.
Qed.

(** The elements of an interval other than one of its elements. *)
Lemma length_filter_punctured (a len lo hi c : Z) :
  0 ≤ len → Z.max lo a ≤ c < Z.min hi (a + len) →
  length (filter (λ d, d ≠ c ∧ lo ≤ d < hi) (seqZ a len))
  = Z.to_nat (Z.min hi (a + len) - Z.max lo a - 1).
Proof.
  intros Hlen Hc.
  pose proof (length_filter_interval a len lo hi Hlen) as Hall.
  rewrite (length_filter_split _ (λ d, d = c)) in Hall.
  assert (Hone : length (filter (λ d, d = c ∧ lo ≤ d < hi) (seqZ a len)) = 1%nat).
  { rewrite (filter_ext_in _ (λ d, c ≤ d < c + 1)) by (intros d _; lia).
    rewrite length_filter_interval by done. lia. }
  rewrite Hone in Hall. lia.
Qed.

Lemma length_bind_if {A B : Type} (cond : A → bool) (f : A → B) (l : list A) :
  length (x ← l; if cond x then [f x] else [])
  = length (filter (λ x, cond x = true) l).
Proof.
  induction l as [|x l IH]; [done|].
  rewrite bind_cons, length_app, IH, filter_cons.
  destruct (cond x); by destruct (decide _).
Qed.

Lemma length_bind_if2 {A B : Type} (cond cond' : A → bool) (f : A → B) (l : list A) :
  length (x ← l; if cond x then if cond' x then [f x] else [] else [])
  = length (filter (λ x, cond x && cond' x = true) l).
Proof.
  induction l as [|x l IH]; [done|].
  rewrite bind_cons, length_app, IH, filter_cons.
  destruct (cond x), (cond' x); by destruct (decide _).
Qed.

(** A queen of army A on a cell gives one clause for each cell it attacks. *)
Lemma length_attack_cell_list (n i j : Z) :
  on_board n i j →
  length (attack_cell_list n i j) = Z.to_nat (queen_moves n i j).
Proof.
  intros [Hi Hj]. unfold attack_cell_list, queen_moves, range, range2.
  rewrite !length_app, !length_bind_if, !length_bind_if2.
  rewrite (filter_ext_in (λ x, bool_decide (x ≠ j) = true)
             (λ d, d ≠ j ∧ 0 ≤ d < n) (seqZ 0 n)).
  2:{ intros d Hd%elem_of_seqZ. cbv beta.
      case_bool_decide; split; (done || (intros; lia)). }
  rewrite (filter_ext_in (λ x, bool_decide (x ≠ i) = true)
             (λ d, d ≠ i ∧ 0 ≤ d < n) (seqZ 0 n)).
  2:{ intros d Hd%elem_of_seqZ. cbv beta.
      case_bool_decide; split; (done || (intros; lia)). }
  rewrite (filter_ext_in
    (λ x, bool_decide (x ≠ 0)
          && (bool_decide (0 ≤ i + x < n) && bool_decide (0 ≤ j + x < n)) = true)
    (λ d, d ≠ 0 ∧ Z.max (- i) (- j) ≤ d < Z.min (n - i) (n - j))
    (seqZ (- n + 1) (n - (- n + 1)))).
  2:{ intros d _. cbv beta.
      repeat case_bool_decide; simpl; split; (done || (intros; lia)). }
  rewrite (filter_ext_in
    (λ x, bool_decide (x ≠ 0)
          && (bool_decide (0 ≤ i + x < n) && bool_decide (0 ≤ j - x < n)) = true)
    (λ d, d ≠ 0 ∧ Z.max (- i) (j - n + 1) ≤ d < Z.min (n - i) (j + 1))
    (seqZ (- n + 1) (n - (- n + 1)))).
  2:{ intros d _. cbv beta.
      repeat case_bool_decide; simpl; split; (done || (intros; lia)). }
  rewrite !length_filter_punctured by lia. lia.
Qed.

Lemma length_bind_cells {B : Type} (g : Z → Z → list B) (l1 l2 : list Z) :
  length (i ← l1; j ← l2; g i j)
  = sum_list_with (λ c : Z * Z, length (g c.1 c.2)) (i ← l1; j ← l2; [(i, j)]).
Proof.
  induction l1 as [|i l1 IH]; [done|].
  rewrite !bind_cons, length_app, sum_list_with_app, IH. f_equal.
  clear IH. induction l2 as [|j l2 IH]; [done|].
  rewrite !bind_cons, length_app, IH. simpl. lia.
Qed.

Lemma sum_list_with_ext_in {A : Type} (f g : A → nat) (l : list A) :
  (∀ x, x ∈ l → f x = g x) → sum_list_with f l = sum_list_with g l.
Proof.
  induction l as [|x l IH]; intros Hext; [done|].
  simpl. rewrite (Hext x) by (by left). rewrite IH; [done|].
  intros y Hy. apply Hext. by right.
Qed.

Lemma length_attack_list (n : Z) :
  length (attack_list n)
  = sum_list_with (λ c : Z * Z, Z.to_nat (queen_moves n c.1 c.2)) (cells n).
Proof.
  unfold attack_list. rewrite length_bind_cells. fold (cells n).
  apply sum_list_with_ext_in. intros [i j] Hij%elem_of_cells.
  by apply length_attack_cell_list.
Qed.

Lemma length_cell_list (n : Z) : length (cell_list n) = length (cells n).
Proof.
  unfold cell_list. rewrite length_bind_cells. fold (cells n).
  generalize (cells n). intros l. induction l as [|c l IH]; [done|].
  simpl. by f_equal.
Qed.

(** The size of the formula. For [n ≥ 1] and [0 ≤ k ≤ n²] the number of
    clauses, which is the number the header declares, is
    [2·C(n², k+1) + 2·C(n², n²−k+1)] for the cardinality of the two armies,
    plus for every cell the number of cells a queen on it attacks, plus
    [n²] for the cells. *)
Theorem clause_count (n k : Z) :
  1 ≤ n → 0 ≤ k ≤ n * n →
  ∃ clauses,
    writeCNF_clauses n k = Ok clauses
    ∧ length clauses
      = (2 * choose (Z.to_nat (n * n)) (Z.to_nat (k + 1))
         + 2 * choose (Z.to_nat (n * n)) (Z.to_nat (n * n - k + 1))
         + sum_list_with (λ c : Z * Z, Z.to_nat (queen_moves n c.1 c.2)) (cells n)
         + Z.to_nat (n * n))%nat.
Proof.
  intros Hn Hk. eexists. split; [apply writeCNF_clauses_eq; lia|].
  rewrite !length_app, length_attack_list, length_cell_list.
  unfold at_most_list, at_least_list.
  rewrite !length_app, !length_fmap, !length_combs, length_cells.
  replace (Z.to_nat n * Z.to_nat n)%nat with (Z.to_nat (n * n)) by lia. lia.
Qed.

Lemma clause_count_witness :
  (1 ≤ 2 ∧ 0 ≤ 1 ≤ 2 * 2)
  ∧ ∃ clauses,
      writeCNF_clauses 2 1 = Ok clauses
      ∧ length clauses
        = (2 * choose (Z.to_nat (2 * 2)) (Z.to_nat (1 + 1))
           + 2 * choose (Z.to_nat (2 * 2)) (Z.to_nat (2 * 2 - 1 + 1))
           + sum_list_with (λ c : Z * Z, Z.to_nat (queen_moves 2 c.1 c.2)) (cells 2)
           + Z.to_nat (2 * 2))%nat.
Proof.
  assert (H1 : 1 ≤ 2) by lia.
  assert (H2 : 0 ≤ 1 ≤ 2 * 2) by lia.
  split; [done|]. exact (clause_count 2 1 H1 H2).
Defined.

(** For [n = 2] and [k = 1]: 12 + 2 + 12 + 4 clauses. *)
Example clause_count_2_1 :
  (2 * choose 4 2 + 2 * choose 4 4
   + sum_list_with (λ c : Z * Z, Z.to_nat (queen_moves 2 c.1 c.2)) (cells 2) + 4)%nat
  = 30%nat.
Proof. reflexivity. Qed.

(** With [--solve], parameters the encoder accepts and a solver that ends
    without a status line and without a value line (an empty output, for
    one), [main] prints the statistics if asked for, then
    [Error running solver.], and returns normally. *)
Theorem main_reports_solver_error
    (subprocess_run : list string → gmap string string → result string)
    (args : Args) (fs : gmap string string) (n k : Z) (clauses : list clause)
    (stdout : string) :
  read_nk args fs = Ok (Some n, Some k) →
  n ≠ 0 → k ≠ 0 →
  writeCNF_clauses n k = Ok clauses →
  args_solve args = true →
  subprocess_run ["glucose"; "-model"; default "tmp.cnf" (nonempty (args_cnf args))]
    (<[default "tmp.cnf" (nonempty (args_cnf args)) := dimacs (2 * n * n) clauses]> fs)
  = Ok stdout →
  (∀ l, l ∈ splitlines stdout → startswith l "s " = false) →
  (∀ l, l ∈ splitlines stdout → startswith l "v " = false) →
  printed (main subprocess_run args fs)
  = (if args_stats args
     then String LF "Solver Stats:"
            :: filter (λ l, startswith l "c " = true) (splitlines stdout)
     else [])
    ++ ["Error running solver."]
  ∧ ended (main subprocess_run args fs) = Returned.
Proof.
  intros Hread Hn Hk Hcl Hsolve Hrun Hs Hv.
  unfold main. rewrite Hread. simpl. rewrite !bool_decide_false by done. simpl.
  unfold writeCNF. rewrite Hcl. cbn [mbind result_bind mret result_ret].
  rewrite Hsolve. unfold solveCNF. rewrite Hrun. cbn [mbind result_bind].
  rewrite solveCNF_lines_other by done. cbn [mbind result_bind mret result_ret].
  simpl. split; [|done]. unfold append at 1. f_equal.
  destruct (args_stats args); [|done]. apply stats_printed.
Qed.

Lemma main_reports_solver_error_witness :
  let args := {| args_n := Some 1; args_k := Some 1; args_cnf := None;
                 args_solve := true; args_stats := true; args_instance := None |} in
  let run : list string → gmap string string → result string :=
    λ _ _, Ok "c interrupted" in
  (read_nk args ∅ = Ok (Some 1, Some 1)
   ∧ 1 ≠ 0 ∧ 1 ≠ 0
   ∧ writeCNF_clauses 1 1 = Ok [[1]; [2]; [-1; -2]]
   ∧ args_solve args = true
   ∧ run ["glucose"; "-model"; default "tmp.cnf" (nonempty (args_cnf args))]
       (<[default "tmp.cnf" (nonempty (args_cnf args))
          := dimacs (2 * 1 * 1) [[1]; [2]; [-1; -2]]]> ∅)
     = Ok "c interrupted"
   ∧ (∀ l, l ∈ splitlines "c interrupted" → startswith l "s " = false)
   ∧ (∀ l, l ∈ splitlines "c interrupted" → startswith l "v " = false))
  ∧ printed (main run args ∅)
    = (if args_stats args
       then String LF "Solver Stats:"
              :: filter (λ l, startswith l "c " = true) (splitlines "c interrupted")
       else [])
      ++ ["Error running solver."]
    ∧ ended (main run args ∅) = Returned.
Proof.
  intros args run.
  assert (H1 : read_nk args ∅ = Ok (Some 1, Some 1)) by reflexivity.
  assert (H2 : 1 ≠ 0) by lia.
  assert (H4 : writeCNF_clauses 1 1 = Ok [[1]; [2]; [-1; -2]]) by reflexivity.
  assert (H5 : args_solve args = true) by reflexivity.
  assert (H6 : run ["glucose"; "-model"; default "tmp.cnf" (nonempty (args_cnf args))]
       (<[default "tmp.cnf" (nonempty (args_cnf args))
          := dimacs (2 * 1 * 1) [[1]; [2]; [-1; -2]]]> ∅)
     = Ok "c interrupted") by reflexivity.
  assert (H7 : ∀ l, l ∈ splitlines "c interrupted" → startswith l "s " = false).
  { intros l Hl. apply list_elem_of_singleton in Hl. by subst l. }
  assert (H8 : ∀ l, l ∈ splitlines "c interrupted" → startswith l "v " = false).
  { intros l Hl. apply list_elem_of_singleton in Hl. by subst l. }
  split; [done|].
  exact (main_reports_solver_error run args ∅ 1 1 _ _ H1 H2 H2 H4 H5 H6 H7 H8).
Defined.
